(** * mama_cas.mixins: ticket validation and custom attributes

    A shallow embedding of [src/mama_cas/mixins.py]: the three validators of
    [TicketValidateMixin] and [CustomAttributesMixin.get_custom_attributes].

    The validators run against a ticket database.  Model instances are rows
    identified by their primary key, a foreign key is the key of the row it
    points to, and reading a foreign-key attribute ([pt.granted_by_pgt]) is a
    lookup in the database that raises [ObjectDoesNotExist] when the row is
    missing.  Exceptions are values of [exn]; a computation is a function of
    the world (the database and the trace of manager calls and log records)
    that may raise, and, for the one [while] loop of the module, may run out
    of fuel. *)

From stdpp Require Import base option list strings gmap.

Open Scope string_scope.
Open Scope list_scope.

(** ** Python values, users and profiles *)

Inductive value :=
| VStr (s : string)
| VInt (n : Z)
| VBool (b : bool)
| VNone.

(** An object seen through [getattr]: the attributes it has, by name. *)
Record Profile := mkProfile { profile_fields : gmap string value }.

(** [User.get_profile()] of django.contrib.auth: the profile, or one of the two
    exceptions the method is documented to raise. *)
Inductive profile_lookup :=
| ProfileFound (p : Profile)
| ProfileDoesNotExist
| ProfileNotAvailable.

Record User := mkUser {
  username : string;
  user_fields : gmap string value;
  get_profile : profile_lookup
}.

(** [getattr(obj, key)]: [None] stands for [AttributeError]. *)
Definition getattr (fields : gmap string value) (key : string) : option value :=
  fields !! key.

(** ** Exceptions *)

Inductive exn :=
| InvalidRequestError (msg : string)
| InvalidTicketError (msg : string)
| InvalidServiceError (msg : string)
| InternalError (msg : string)
| BadPGTError (msg : string)
| ObjectDoesNotExist (msg : string)
| OtherException (name msg : string).

(** [except (InvalidRequestError, InvalidTicketError, InvalidServiceError,
    InternalError)] of [validate_service_ticket] and [validate_proxy_ticket]. *)
Definition ticket_errors (e : exn) : bool :=
  match e with
  | InvalidRequestError _ | InvalidTicketError _
  | InvalidServiceError _ | InternalError _ => true
  | _ => false
  end.

(** [except (InvalidRequestError, BadPGTError, InternalError)] of
    [validate_proxy_granting_ticket]. *)
Definition pgt_errors (e : exn) : bool :=
  match e with
  | InvalidRequestError _ | BadPGTError _ | InternalError _ => true
  | _ => false
  end.

(** ** Tickets

    [pt_service] is whatever [targetService] the request carried when the
    ticket was created, so it is a request parameter ([None] when absent). *)

Record ServiceTicket := mkST {
  st_id : nat;
  st_ticket : string;
  st_service : option string;
  st_user : User;
  st_renew : bool
}.

Record ProxyTicket := mkPT {
  pt_id : nat;
  pt_ticket : string;
  pt_service : option string;
  pt_user : User;
  pt_granted_by_pgt : nat
}.

Record ProxyGrantingTicket := mkPGT {
  pgt_id : nat;
  pgt_ticket : string;
  pgt_user : User;
  pgt_callback : string;
  pgt_granted_by_st : option nat;
  pgt_granted_by_pt : option nat
}.

(** The ticket that is handed to [get_custom_attributes]. *)
Inductive Ticket :=
| TicketST (st : ServiceTicket)
| TicketPT (pt : ProxyTicket).

Definition ticket_user (t : Ticket) : User :=
  match t with
  | TicketST st => st_user st
  | TicketPT pt => pt_user pt
  end.

(** ** The database, the trace and the world *)

Record DB := mkDB {
  service_tickets : gmap nat ServiceTicket;
  proxy_tickets : gmap nat ProxyTicket;
  proxy_granting_tickets : gmap nat ProxyGrantingTicket
}.

Inductive event :=
| LogDebug (msg : string)
| LogWarn (e : exn)
| LogWarnMsg (msg : string)
| ST_validate (ticket service renew : option string)
| PT_validate (ticket service : option string)
| PGT_validate (pgt target_service : option string)
| PGT_create (pgturl : string) (user : User)
             (granted_by_st : option ServiceTicket)
             (granted_by_pt : option ProxyTicket)
| PT_create (service : option string) (user : User)
            (granted_by_pgt : ProxyGrantingTicket).

Definition is_create (ev : event) : bool :=
  match ev with
  | PGT_create _ _ _ _ | PT_create _ _ _ => true
  | _ => false
  end.

Record World := mkWorld { db : DB; trace : list event }.

Inductive outcome (A : Type) :=
| Return (a : A)
| Raise (e : exn).
Arguments Return {A} a.
Arguments Raise {A} e.

(** A computation: [None] is a run that has not finished within its fuel. *)
Definition M (A : Type) : Type := World -> option (outcome A * World).

Definition ret {A} (a : A) : M A := fun w => Some (Return a, w).

Definition bind {A B} (m : M A) (k : A -> M B) : M B := fun w =>
  match m w with
  | None => None
  | Some (Return a, w') => k a w'
  | Some (Raise e, w') => Some (Raise e, w')
  end.

Notation "'let!' x ':=' m 'in' k" := (bind m (fun x => k))
  (at level 10, x name, m at level 100, k at level 200).
Notation "'run!' m 'in' k" := (bind m (fun _ => k))
  (at level 10, m at level 100, k at level 200).

(** [try: body / except <catches> as e: handler e / else: orelse x].  An
    exception of [orelse] is not caught, as in Python. *)
Definition try_except_else {A B} (body : M A) (catches : exn -> bool)
    (handler : exn -> M B) (orelse : A -> M B) : M B := fun w =>
  match body w with
  | None => None
  | Some (Return a, w') => orelse a w'
  | Some (Raise e, w') => if catches e then handler e w' else Some (Raise e, w')
  end.

Definition emit (ev : event) : M unit := fun w =>
  Some (Return tt, {| db := db w; trace := trace w ++ [ev] |}).

(** A call of a manager method: recorded in the trace, then run on the
    database. *)
Definition call {A} (ev : event) (op : DB -> outcome A * DB) : M A := fun w =>
  let '(r, d) := op (db w) in
  Some (r, {| db := d; trace := trace w ++ [ev] |}).

(** The world once the events [evs] have happened and left the database [d]. *)
Definition logged (w : World) (evs : list event) (d : DB) : World :=
  {| db := d; trace := trace w ++ evs |}.

(** Reading a foreign key: [row.fk] fetches the row the key points to. *)
Definition fetch {A} (table : DB -> gmap nat A) (what : string) (id : nat) : M A :=
  fun w =>
    match table (db w) !! id with
    | Some row => Some (Return row, w)
    | None => Some (Raise (ObjectDoesNotExist what), w)
    end.

(** [pt.granted_by_pgt] *)
Definition granted_by_pgt (pt : ProxyTicket) : M ProxyGrantingTicket :=
  fetch proxy_granting_tickets "ProxyGrantingTicket" (pt_granted_by_pgt pt).

(** [pgt.granted_by_pt]: [None] when the key is null. *)
Definition granted_by_pt (pgt : ProxyGrantingTicket) : M (option ProxyTicket) :=
  match pgt_granted_by_pt pgt with
  | None => ret None
  | Some id => let! pt := fetch proxy_tickets "ProxyTicket" id in ret (Some pt)
  end.

(** What one step back from a proxy ticket finds: the two attribute reads of
    [prior_pt.granted_by_pgt.granted_by_pt]. *)
Definition step_back (p : ProxyTicket) : M (option ProxyTicket) :=
  let! pgt := granted_by_pgt p in granted_by_pt pgt.

(** ** The ticket store

    [mama_cas/models.py] is not among the sources.  The three
    [validate_ticket] manager methods are taken as they come: any function of
    the arguments and the database that returns a ticket or raises.  The
    generator of ticket strings is opaque as well. *)

Class TicketStore := {
  ST_validate_ticket :
    option string -> option string -> option string -> DB -> outcome ServiceTicket * DB;
  PT_validate_ticket :
    option string -> option string -> DB -> outcome ProxyTicket * DB;
  PGT_validate_ticket :
    option string -> option string -> DB -> outcome ProxyGrantingTicket * DB;
  create_ticket_str : string -> DB -> string
}.

(** The rows of a new ticket, and the database with the row added.  A new
    row takes a primary key that its table does not use. *)
Definition new_pgt `{TicketStore} (pgturl : string) (user : User)
    (granted_by_st : option ServiceTicket) (granted_by_pt : option ProxyTicket)
    (d : DB) : ProxyGrantingTicket :=
  {| pgt_id := fresh (dom (proxy_granting_tickets d));
     pgt_ticket := create_ticket_str "PGT" d;
     pgt_user := user;
     pgt_callback := pgturl;
     pgt_granted_by_st := st_id <$> granted_by_st;
     pgt_granted_by_pt := pt_id <$> granted_by_pt |}.

Definition add_pgt (d : DB) (pgt : ProxyGrantingTicket) : DB :=
  {| service_tickets := service_tickets d;
     proxy_tickets := proxy_tickets d;
     proxy_granting_tickets := <[pgt_id pgt := pgt]> (proxy_granting_tickets d) |}.

Definition new_pt `{TicketStore} (service : option string) (user : User)
    (granted_by_pgt : ProxyGrantingTicket) (d : DB) : ProxyTicket :=
  {| pt_id := fresh (dom (proxy_tickets d));
     pt_ticket := create_ticket_str "PT" d;
     pt_service := service;
     pt_user := user;
     pt_granted_by_pgt := pgt_id granted_by_pgt |}.

Definition add_pt (d : DB) (pt : ProxyTicket) : DB :=
  {| service_tickets := service_tickets d;
     proxy_tickets := <[pt_id pt := pt]> (proxy_tickets d);
     proxy_granting_tickets := proxy_granting_tickets d |}.

(** Modelled from the spec: [ProxyGrantingTicket.objects.create_ticket], the
    store's create_proxy_granting_ticket(callback_url, user,
    granted_by_st|granted_by_pt) -> ProxyGrantingTicket.  It adds a row under
    a primary key that is not in use, holding the user, the callback URL and
    the back-reference it was given, and returns the row. *)
Definition PGT_create_ticket `{TicketStore} (pgturl : string) (user : User)
    (granted_by_st : option ServiceTicket) (granted_by_pt : option ProxyTicket)
    (d : DB) : outcome ProxyGrantingTicket * DB :=
  let pgt := new_pgt pgturl user granted_by_st granted_by_pt d in
  (Return pgt, add_pgt d pgt).

(** Modelled from the spec: [ProxyTicket.objects.create_ticket], the store's
    create_proxy_ticket(service, user, granted_by_pgt) -> ProxyTicket.  It
    adds a row under a primary key that is not in use, holding the service,
    the user and the back-reference it was given, and returns the row. *)
Definition PT_create_ticket `{TicketStore} (service : option string) (user : User)
    (granted_by_pgt : ProxyGrantingTicket) (d : DB) : outcome ProxyTicket * DB :=
  let pt := new_pt service user granted_by_pgt d in
  (Return pt, add_pt d pt).

(** ** Requests *)

(** [request.GET]: the query parameters; [.get(key)] is [None] when the key
    is missing. *)
Record Request := mkRequest { GET : gmap string string }.

(** [str(x)] of a parameter inside a ["... %s" % x]. *)
Definition py_str (x : option string) : string :=
  match x with
  | Some s => s
  | None => "None"
  end.

(** Truth value of a request parameter: [None] and the empty string are
    false. *)
Definition truthy (x : option string) : bool :=
  match x with
  | Some (String _ _) => true
  | _ => false
  end.

(** ** TicketValidateMixin *)

(** The loop of [validate_proxy_ticket]:
<<
    while prior_pt:
        proxies.append(prior_pt.service)
        prior_pt = prior_pt.granted_by_pgt.granted_by_pt
>>
    One unit of fuel pays for one run of the body. *)
Fixpoint while_prior_pt (fuel : nat) (prior_pt : option ProxyTicket)
    (proxies : list (option string)) : M (list (option string)) :=
  match prior_pt with
  | None => ret proxies
  | Some p =>
    match fuel with
    | O => fun _ => None
    | S fuel' =>
      let proxies := proxies ++ [pt_service p] in
      let! pgt := granted_by_pgt p in
      let! prior_pt := granted_by_pt pgt in
      while_prior_pt fuel' prior_pt proxies
    end
  end.

Definition ST_result : Type :=
  option ServiceTicket * option ProxyGrantingTicket * option exn.

Definition PT_result : Type :=
  option ProxyTicket * option ProxyGrantingTicket
  * option (list (option string)) * option exn.

Definition PGT_result : Type := option ProxyTicket * option exn.

Section Validators.
Context `{TicketStore}.

Definition validate_service_ticket (request : Request) : M ST_result :=
  let service := GET request !! "service" in
  let ticket := GET request !! "ticket" in
  let renew := GET request !! "renew" in
  let pgturl := GET request !! "pgtUrl" in
  run! emit (LogDebug ("Service validation request received for " +:+ py_str ticket)) in
  try_except_else
    (call (ST_validate ticket service renew)
          (ST_validate_ticket ticket service renew))
    ticket_errors
    (fun e =>
       run! emit (LogWarn e) in
       ret (None, None, Some e))
    (fun st =>
       match pgturl with
       | Some (String _ _ as url) =>
         run! emit (LogDebug ("Proxy-granting ticket request received for " +:+ url)) in
         let! pgt := call (PGT_create url (st_user st) (Some st) None)
                          (PGT_create_ticket url (st_user st) (Some st) None) in
         ret (Some st, Some pgt, None)
       | _ => ret (Some st, None, None)
       end).

Definition validate_proxy_ticket (fuel : nat) (request : Request) : M PT_result :=
  let service := GET request !! "service" in
  let ticket := GET request !! "ticket" in
  let pgturl := GET request !! "pgtUrl" in
  run! emit (LogDebug ("Proxy validation request received for " +:+ py_str ticket)) in
  try_except_else
    (call (PT_validate ticket service)
          (PT_validate_ticket ticket service))
    ticket_errors
    (fun e =>
       run! emit (LogWarn e) in
       ret (None, None, None, Some e))
    (fun pt =>
       let proxies := [pt_service pt] in
       let! pgt0 := granted_by_pgt pt in
       let! prior_pt := granted_by_pt pgt0 in
       let! proxies := while_prior_pt fuel prior_pt proxies in
       match pgturl with
       | Some (String _ _ as url) =>
         run! emit (LogDebug ("Proxy-granting ticket request received for " +:+ url)) in
         let! pgt := call (PGT_create url (pt_user pt) None (Some pt))
                          (PGT_create_ticket url (pt_user pt) None (Some pt)) in
         ret (Some pt, Some pgt, Some proxies, None)
       | _ => ret (Some pt, None, Some proxies, None)
       end).

Definition validate_proxy_granting_ticket (request : Request) : M PGT_result :=
  let pgt := GET request !! "pgt" in
  let target_service := GET request !! "targetService" in
  run! emit (LogDebug "Proxy ticket request received") in
  try_except_else
    (call (PGT_validate pgt target_service)
          (PGT_validate_ticket pgt target_service))
    pgt_errors
    (fun e =>
       run! emit (LogWarn e) in
       ret (None, Some e))
    (fun pgt =>
       let! pt := call (PT_create target_service (pgt_user pgt) pgt)
                       (PT_create_ticket target_service (pgt_user pgt) pgt) in
       ret (Some pt, None)).

End Validators.

(** ** CustomAttributesMixin *)

(** [django.conf.settings]: a setting that is not defined is [None], and
    [getattr(settings, name, ())] then gives the empty tuple. *)
Record Settings := mkSettings {
  MAMA_CAS_USER_ATTRIBUTES : option (list (string * string));
  MAMA_CAS_PROFILE_ATTRIBUTES : option (list (string * string))
}.

Definition getattr_default (setting : option (list (string * string)))
  : list (string * string) :=
  match setting with
  | Some l => l
  | None => []
  end.

Definition Attribute : Type := string * value.

(** One run of the body of [for (name, key) in attr_list]: the attribute is
    appended, or a warning is logged and the entry is left out. *)
Definition attr_step (who : string) (fields : gmap string value)
    (acc : list Attribute * list event) (entry : string * string)
  : list Attribute * list event :=
  let '(attributes, log) := acc in
  let '(name, key) := entry in
  match getattr fields key with
  | Some v => (attributes ++ [(name, v)], log)
  | None =>
    (attributes,
     log ++ [LogWarnMsg (who +:+ " has no attribute named '" +:+ key +:+ "'")])
  end.

Definition for_attr_list (who : string) (fields : gmap string value)
    (attr_list : list (string * string)) (acc : list Attribute * list event)
  : list Attribute * list event :=
  fold_left (attr_step who fields) attr_list acc.

(** The result is [None] for Python's [None], and the log holds the warnings
    in the order they were written. *)
Definition get_custom_attributes (settings : Settings) (ticket : option Ticket)
  : option (list Attribute) * list event :=
  match ticket with
  | None => (None, [])
  | Some t =>
    let user := ticket_user t in
    let acc := ([], []) in
    let user_attr_list := getattr_default (MAMA_CAS_USER_ATTRIBUTES settings) in
    let acc := for_attr_list "User" (user_fields user) user_attr_list acc in
    let acc :=
      match get_profile user with
      | ProfileFound profile =>
        let profile_attr_list :=
          getattr_default (MAMA_CAS_PROFILE_ATTRIBUTES settings) in
        for_attr_list "Profile" (profile_fields profile) profile_attr_list acc
      | ProfileDoesNotExist | ProfileNotAvailable => acc
      end in
    (Some (fst acc), snd acc)
  end.

(** ** What a request asks for, and the events of its steps *)

(** The callback URL of a request: its [pgtUrl] parameter, when the
    parameter is there and is not the empty string (the test [if pgturl]). *)
Definition callback_url (request : Request) : option string :=
  match GET request !! "pgtUrl" with
  | Some (String a s) => Some (String a s)
  | _ => None
  end.

Definition st_request_events (request : Request) : list event :=
  [LogDebug ("Service validation request received for "
             +:+ py_str (GET request !! "ticket"));
   ST_validate (GET request !! "ticket") (GET request !! "service")
               (GET request !! "renew")].

Definition pt_request_events (request : Request) : list event :=
  [LogDebug ("Proxy validation request received for "
             +:+ py_str (GET request !! "ticket"));
   PT_validate (GET request !! "ticket") (GET request !! "service")].

Definition pgt_request_events (request : Request) : list event :=
  [LogDebug "Proxy ticket request received";
   PGT_validate (GET request !! "pgt") (GET request !! "targetService")].

Definition pgt_issue_events (url : string) (user : User)
    (granted_by_st : option ServiceTicket) (granted_by_pt : option ProxyTicket)
  : list event :=
  [LogDebug ("Proxy-granting ticket request received for " +:+ url);
   PGT_create url user granted_by_st granted_by_pt].

(** ** The delegation history, in the words of the specification *)

(** One delegation hop back: from a proxy ticket to the proxy ticket that its
    proxy-granting ticket was granted by. *)
Definition hop (d : DB) (pt prior : ProxyTicket) : Prop :=
  exists pgt id,
    proxy_granting_tickets d !! pt_granted_by_pgt pt = Some pgt
    /\ pgt_granted_by_pt pgt = Some id
    /\ proxy_tickets d !! id = Some prior.

(** The proxy tickets of a delegation: the validated ticket, then each prior
    proxy ticket found by following [granted_by_pgt.granted_by_pt], until
    that reference is null. *)
Inductive delegation_history (d : DB) : ProxyTicket -> list ProxyTicket -> Prop :=
| history_end pt pgt :
    proxy_granting_tickets d !! pt_granted_by_pgt pt = Some pgt ->
    pgt_granted_by_pt pgt = None ->
    delegation_history d pt [pt]
| history_hop pt prior ts :
    hop d pt prior ->
    delegation_history d prior ts ->
    delegation_history d pt (pt :: ts).

(** The history that is still to be walked when the loop is entered with
    [prior_pt]. *)
Definition remaining_history (d : DB) (prior_pt : option ProxyTicket)
    (ts : list ProxyTicket) : Prop :=
  match prior_pt with
  | None => ts = []
  | Some p => delegation_history d p ts
  end.

(** The origin of a proxy-granting ticket is a service ticket. *)
Definition granted_by_service_ticket (pgt : ProxyGrantingTicket) : Prop :=
  is_Some (pgt_granted_by_st pgt) /\ pgt_granted_by_pt pgt = None.

(** The error kinds a validator converts into its error slot. *)
Inductive ticket_validation_error : exn -> Prop :=
| tve_request msg : ticket_validation_error (InvalidRequestError msg)
| tve_ticket msg : ticket_validation_error (InvalidTicketError msg)
| tve_service msg : ticket_validation_error (InvalidServiceError msg)
| tve_internal msg : ticket_validation_error (InternalError msg).

Inductive pgt_validation_error : exn -> Prop :=
| pve_request msg : pgt_validation_error (InvalidRequestError msg)
| pve_bad_pgt msg : pgt_validation_error (BadPGTError msg)
| pve_internal msg : pgt_validation_error (InternalError msg).

(** Every derived ticket of the database has the owning user of the ticket
    that authorized it. *)
Definition same_user_throughout (d : DB) : Prop :=
  (forall i pt, proxy_tickets d !! i = Some pt ->
     exists pgt, proxy_granting_tickets d !! pt_granted_by_pgt pt = Some pgt
                 /\ pgt_user pgt = pt_user pt)
  /\ (forall i pgt j, proxy_granting_tickets d !! i = Some pgt ->
        pgt_granted_by_st pgt = Some j ->
        exists st, service_tickets d !! j = Some st /\ st_user st = pgt_user pgt)
  /\ (forall i pgt j, proxy_granting_tickets d !! i = Some pgt ->
        pgt_granted_by_pt pgt = Some j ->
        exists pt, proxy_tickets d !! j = Some pt /\ pt_user pt = pgt_user pgt).

(** An entry of an attribute list read on an object: the pair that is
    reported, if the object has the field. *)
Definition resolved (fields : gmap string value) (entry : string * string)
  : option Attribute :=
  match fields !! entry.2 with
  | Some v => Some (entry.1, v)
  | None => None
  end.

(** ** A store that finds tickets by their string, and sample data *)

Definition find_row {A} (ticket_of : A -> string) (table : gmap nat A)
    (s : string) : option A :=
  snd <$> list_find (fun row => ticket_of row = s) (snd <$> map_to_list table).

Definition lookup_ST (ticket service renew : option string) (d : DB)
  : outcome ServiceTicket * DB :=
  match ticket, service with
  | Some t, Some s =>
    match find_row st_ticket (service_tickets d) t with
    | Some st =>
      if decide (st_service st = Some s) then (Return st, d)
      else (Raise (InvalidServiceError s), d)
    | None => (Raise (InvalidTicketError t), d)
    end
  | _, _ => (Raise (InvalidRequestError "service and ticket are required"), d)
  end.

Definition lookup_PT (ticket service : option string) (d : DB)
  : outcome ProxyTicket * DB :=
  match ticket, service with
  | Some t, Some s =>
    match find_row pt_ticket (proxy_tickets d) t with
    | Some pt =>
      if decide (pt_service pt = Some s) then (Return pt, d)
      else (Raise (InvalidServiceError s), d)
    | None => (Raise (InvalidTicketError t), d)
    end
  | _, _ => (Raise (InvalidRequestError "service and ticket are required"), d)
  end.

Definition lookup_PGT (pgt target_service : option string) (d : DB)
  : outcome ProxyGrantingTicket * DB :=
  match pgt, target_service with
  | Some t, Some _ =>
    match find_row pgt_ticket (proxy_granting_tickets d) t with
    | Some g => (Return g, d)
    | None => (Raise (BadPGTError t), d)
    end
  | _, _ => (Raise (InvalidRequestError "pgt and targetService are required"), d)
  end.

Definition lookup_store : TicketStore :=
  {| ST_validate_ticket := lookup_ST;
     PT_validate_ticket := lookup_PT;
     PGT_validate_ticket := lookup_PGT;
     create_ticket_str prefix d := prefix +:+ "-new" |}.

Definition bob : User :=
  {| username := "bob";
     user_fields := {[ "email" := VStr "bob@example.com" ]};
     get_profile := ProfileFound {| profile_fields := {[ "nick" := VStr "bobby" ]} |} |}.

Definition alice : User :=
  {| username := "alice";
     user_fields := {[ "email" := VStr "alice@example.com" ]};
     get_profile := ProfileDoesNotExist |}.

Definition st1 : ServiceTicket := mkST 1 "ST-1" (Some "https://a.example") bob false.
Definition pgt1 : ProxyGrantingTicket :=
  mkPGT 1 "PGT-1" bob "https://b.example/callback" (Some 1) None.
Definition pt1 : ProxyTicket := mkPT 1 "PT-1" (Some "https://b.example") bob 1.
Definition pgt2 : ProxyGrantingTicket :=
  mkPGT 2 "PGT-2" bob "https://b.example/callback" None (Some 1).
Definition pt2 : ProxyTicket := mkPT 2 "PT-2" (Some "https://c.example") bob 2.

Definition sample_db : DB :=
  {| service_tickets := {[ 1 := st1 ]};
     proxy_tickets := {[ 1 := pt1; 2 := pt2 ]};
     proxy_granting_tickets := {[ 1 := pgt1; 2 := pgt2 ]} |}.

Definition sample_world : World := {| db := sample_db; trace := [] |}.

Definition request_of (params : list (string * string)) : Request :=
  {| GET := list_to_map params |}.

Definition st2 : ServiceTicket := mkST 2 "ST-2" (Some "https://a.example") alice false.

Definition sample_st_request : Request :=
  request_of [("service", "https://a.example"); ("ticket", "ST-1")].

Definition sample_st_pgt_request : Request :=
  request_of [("service", "https://a.example"); ("ticket", "ST-1");
              ("pgtUrl", "https://a.example/callback")].

Definition expired_st_request : Request :=
  request_of [("service", "https://a.example"); ("ticket", "ST-expired");
              ("pgtUrl", "https://a.example/callback")].

Definition sample_pt_request : Request :=
  request_of [("service", "https://c.example"); ("ticket", "PT-2")].

Definition sample_pt_pgt_request : Request :=
  request_of [("service", "https://c.example"); ("ticket", "PT-2");
              ("pgtUrl", "https://c.example/callback")].

Definition unknown_pt_request : Request :=
  request_of [("service", "https://c.example"); ("ticket", "PT-unknown");
              ("pgtUrl", "https://c.example/callback")].

Definition sample_pgt_request : Request :=
  request_of [("pgt", "PGT-2"); ("targetService", "https://d.example")].

Definition bad_pgt_request : Request :=
  request_of [("pgt", "PGT-unknown"); ("targetService", "https://d.example")].

Definition loop_request : Request :=
  request_of [("service", "https://c.example"); ("ticket", "PT-loop")].

(** A database in which a proxy ticket is, against the protocol, granted by
    a proxy-granting ticket that it granted itself. *)
Definition pgt_loop : ProxyGrantingTicket :=
  mkPGT 1 "PGT-loop" bob "https://c.example/callback" None (Some 1).
Definition pt_loop : ProxyTicket := mkPT 1 "PT-loop" (Some "https://c.example") bob 1.

Definition cyclic_db : DB :=
  {| service_tickets := ∅;
     proxy_tickets := {[ 1 := pt_loop ]};
     proxy_granting_tickets := {[ 1 := pgt_loop ]} |}.

Definition cyclic_world : World := {| db := cyclic_db; trace := [] |}.

Definition sample_settings : Settings :=
  {| MAMA_CAS_USER_ATTRIBUTES := Some [("mail", "email"); ("phone", "telephone")];
     MAMA_CAS_PROFILE_ATTRIBUTES := Some [("alias", "nick")] |}.

Definition no_settings : Settings :=
  {| MAMA_CAS_USER_ATTRIBUTES := None; MAMA_CAS_PROFILE_ATTRIBUTES := None |}.

(** ** Vocabulary for the further properties *)

Definition is_validate (ev : event) : bool :=
  match ev with
  | ST_validate _ _ _ | PT_validate _ _ | PGT_validate _ _ => true
  | _ => false
  end.

(** What may follow the validation call in the trace of a run: no second
    validation, and at most one create call, which then is the last event. *)
Definition after_validation (rest : list event) : Prop :=
  Forall (fun ev => is_validate ev = false) rest
  /\ (Forall (fun ev => is_create ev = false) rest
      \/ exists pre c, rest = pre ++ [c] /\ is_create c = true
                       /\ Forall (fun ev => is_create ev = false) pre).

(** Every row of [d] is a row of [d'], unchanged. *)
Definition rows_kept (d d' : DB) : Prop :=
  service_tickets d ⊆ service_tickets d'
  /\ proxy_tickets d ⊆ proxy_tickets d'
  /\ proxy_granting_tickets d ⊆ proxy_granting_tickets d'.

(** The request without one of its parameters. *)
Definition without_param (key : string) (request : Request) : Request :=
  {| GET := delete key (GET request) |}.

(** The warning that an entry of an attribute list causes on an object that
    lacks its field. *)
Definition warning_for (who : string) (fields : gmap string value)
    (entry : string * string) : option event :=
  match fields !! entry.2 with
  | Some _ => None
  | None =>
    Some (LogWarnMsg (who +:+ " has no attribute named '" +:+ entry.2 +:+ "'"))
  end.

(** A proxy ticket whose proxy-granting ticket is not in the database. *)
Definition pt_orphan : ProxyTicket :=
  mkPT 1 "PT-orphan" (Some "https://c.example") bob 7.

Definition orphan_db : DB :=
  {| service_tickets := ∅;
     proxy_tickets := {[ 1 := pt_orphan ]};
     proxy_granting_tickets := ∅ |}.

Definition orphan_world : World := {| db := orphan_db; trace := [] |}.

Definition orphan_request : Request :=
  request_of [("service", "https://c.example"); ("ticket", "PT-orphan");
              ("pgtUrl", "https://c.example/callback")].

Definition empty_pgturl_request : Request :=
  request_of [("service", "https://a.example"); ("ticket", "ST-1");
              ("pgtUrl", EmptyString)].

(** Three requests in a row: a proxy validation that asks for a
    proxy-granting ticket, the use of that ticket for a further service, and
    the validation of the proxy ticket it gave. *)
Definition hop_pgt_request : Request :=
  request_of [("pgt", "PGT-new"); ("targetService", "https://d.example")].

Definition hop_pt_request : Request :=
  request_of [("service", "https://d.example"); ("ticket", "PT-new")].

(** The world after the sample proxy validation that asked for a
    proxy-granting ticket, and after the sample service validation that did. *)
Definition hop_pgt : ProxyGrantingTicket :=
  @new_pgt lookup_store "https://c.example/callback" bob None (Some pt2) sample_db.

Definition hop_world : World :=
  logged sample_world
         (pt_request_events sample_pt_pgt_request
          ++ pgt_issue_events "https://c.example/callback" bob None (Some pt2))
         (add_pgt sample_db hop_pgt).

Definition first_pgt : ProxyGrantingTicket :=
  @new_pgt lookup_store "https://a.example/callback" bob (Some st1) None sample_db.

Definition first_world : World :=
  logged sample_world
         (st_request_events sample_st_pgt_request
          ++ pgt_issue_events "https://a.example/callback" bob (Some st1) None)
         (add_pgt sample_db first_pgt).

(** * Properties *)

(** ** The attribute extractor *)

Section Attributes.
Implicit Types (fields : gmap string value) (acc : list Attribute).
Implicit Types (attr_list : list (string * string)).

Lemma attr_step_fst who fields acc log entry :
  (attr_step who fields (acc, log) entry).1
  = acc ++ from_option (fun a => [a]) [] (resolved fields entry).
Proof.
  destruct entry as [name key]. unfold attr_step, resolved, getattr. simpl.
  destruct (fields !! key); simpl; [done | by rewrite app_nil_r].
Qed.

Lemma for_attr_list_fst who fields attr_list acc log :
  (for_attr_list who fields attr_list (acc, log)).1
  = acc ++ omap (resolved fields) attr_list.
Proof.
  unfold for_attr_list.
  revert acc log. induction attr_list as [|entry rest IH]; intros acc log.
  - simpl. by rewrite app_nil_r.
  - change (fold_left (attr_step who fields) (entry :: rest) (acc, log))
      with (fold_left (attr_step who fields) rest
                      (attr_step who fields (acc, log) entry)).
    pose proof (attr_step_fst who fields acc log entry) as Hstep.
    destruct (attr_step who fields (acc, log) entry) as [acc' log'].
    simpl in Hstep. subst acc'. rewrite IH.
    change (omap (resolved fields) (entry :: rest))
      with (from_option (fun a => a :: omap (resolved fields) rest)
                        (omap (resolved fields) rest) (resolved fields entry)).
    destruct (resolved fields entry); simpl.
    + by rewrite <- app_assoc.
    + by rewrite app_nil_r.
Qed.

(** The attributes reported for a ticket, as one expression. *)
Lemma get_custom_attributes_some settings t :
  (get_custom_attributes settings (Some t)).1
  = Some (omap (resolved (user_fields (ticket_user t)))
               (getattr_default (MAMA_CAS_USER_ATTRIBUTES settings))
          ++ match get_profile (ticket_user t) with
             | ProfileFound profile =>
               omap (resolved (profile_fields profile))
                    (getattr_default (MAMA_CAS_PROFILE_ATTRIBUTES settings))
             | _ => []
             end).
Proof.
  unfold get_custom_attributes. cbn [fst].
  set (user_part := for_attr_list _ _ _ _).
  assert (user_part.1
          = omap (resolved (user_fields (ticket_user t)))
                 (getattr_default (MAMA_CAS_USER_ATTRIBUTES settings))) as Huser
    by (subst user_part; by rewrite for_attr_list_fst).
  destruct (get_profile (ticket_user t)) as [profile| |].
  - destruct user_part as [acc log]. rewrite for_attr_list_fst.
    simpl in Huser. by rewrite Huser.
  - rewrite Huser. by rewrite app_nil_r.
  - rewrite Huser. by rewrite app_nil_r.
Qed.

Lemma elem_of_omap_resolved fields attr_list (a : Attribute) :
  a ∈ omap (resolved fields) attr_list
  <-> exists key, (a.1, key) ∈ attr_list /\ fields !! key = Some a.2.
Proof.
  rewrite list_elem_of_omap. split.
  - intros [[name key] [Hin Hres]]. unfold resolved in Hres. simpl in Hres.
    destruct (fields !! key) as [v|] eqn:Hv; [|done].
    injection Hres as <-. simpl. eauto.
  - intros [key [Hin Hv]]. exists (a.1, key). split; [done|].
    unfold resolved. simpl. rewrite Hv. by destruct a.
Qed.

End Attributes.

Lemma omap_resolved_names fields (attr_list : list (string * string)) :
  (omap (resolved fields) attr_list).*1 `sublist_of` attr_list.*1.
Proof.
  induction attr_list as [|[name key] rest IH]; [done|].
  change (omap (resolved fields) ((name, key) :: rest))
    with (from_option (fun a => a :: omap (resolved fields) rest)
                      (omap (resolved fields) rest) (resolved fields (name, key))).
  destruct (resolved fields (name, key)) as [a|] eqn:Hres; simpl.
  - assert (a.1 = name) as ->.
    { unfold resolved in Hres. simpl in Hres.
      destruct (fields !! key); by simplify_eq. }
    by apply sublist_skip.
  - by apply sublist_cons.
Qed.

(** C7: without a ticket the extractor returns None, which is not the empty
    list; for a ticket and no configured attribute mapping it returns the
    empty list. *)
Theorem get_custom_attributes_none_or_empty settings :
  (get_custom_attributes settings None).1 = None
  /\ (get_custom_attributes settings None).1 <> Some []
  /\ forall t,
       getattr_default (MAMA_CAS_USER_ATTRIBUTES settings) = [] ->
       getattr_default (MAMA_CAS_PROFILE_ATTRIBUTES settings) = [] ->
       (get_custom_attributes settings (Some t)).1 = Some [].
Proof.
  split; [done|]. split; [done|].
  intros t Huser Hprofile.
  rewrite get_custom_attributes_some, Huser, Hprofile.
  by destruct (get_profile (ticket_user t)).
Qed.

Lemma get_custom_attributes_none_or_empty_witness :
  (get_custom_attributes no_settings (Some (TicketPT pt1))).1 = Some []
  /\ (get_custom_attributes (mkSettings (Some []) None) (Some (TicketST st1))).1
     = Some [].
Proof.
  split.
  - apply (proj2 (proj2 (get_custom_attributes_none_or_empty no_settings)));
      reflexivity.
  - apply (proj2 (proj2 (get_custom_attributes_none_or_empty
                           (mkSettings (Some []) None))));
      reflexivity.
Defined.

(** C8: for a ticket the extractor always returns a list.  Every configured
    pair whose field exists on the user, or on the profile when there is one,
    is in it; nothing else is, so a pair whose field is missing is skipped;
    and without a profile the list is the user attributes alone. *)
Theorem get_custom_attributes_best_effort settings t :
  let user := ticket_user t in
  let user_attr_list := getattr_default (MAMA_CAS_USER_ATTRIBUTES settings) in
  let profile_attr_list := getattr_default (MAMA_CAS_PROFILE_ATTRIBUTES settings) in
  exists attributes,
    (get_custom_attributes settings (Some t)).1 = Some attributes
    /\ (forall name key v,
          (name, key) ∈ user_attr_list ->
          getattr (user_fields user) key = Some v ->
          (name, v) ∈ attributes)
    /\ (forall profile name key v,
          get_profile user = ProfileFound profile ->
          (name, key) ∈ profile_attr_list ->
          getattr (profile_fields profile) key = Some v ->
          (name, v) ∈ attributes)
    /\ (forall name v,
          (name, v) ∈ attributes ->
          (exists key, (name, key) ∈ user_attr_list
                       /\ getattr (user_fields user) key = Some v)
          \/ (exists profile key,
                get_profile user = ProfileFound profile
                /\ (name, key) ∈ profile_attr_list
                /\ getattr (profile_fields profile) key = Some v))
    /\ (get_profile user = ProfileDoesNotExist
        \/ get_profile user = ProfileNotAvailable ->
        attributes = omap (resolved (user_fields user)) user_attr_list).
Proof.
  intros user user_attr_list profile_attr_list.
  eexists. split; [apply get_custom_attributes_some|].
  fold user user_attr_list profile_attr_list. unfold getattr.
  repeat split.
  - intros name key v Hin Hv. apply elem_of_app. left.
    apply (elem_of_omap_resolved _ _ (name, v)). eauto.
  - intros profile name key v Hprofile Hin Hv. apply elem_of_app. right.
    rewrite Hprofile. apply (elem_of_omap_resolved _ _ (name, v)). eauto.
  - intros name v [Hin|Hin]%elem_of_app.
    + left. by apply (elem_of_omap_resolved _ _ (name, v)) in Hin.
    + right. destruct (get_profile user) as [profile| |] eqn:Hprofile;
        try by apply elem_of_nil in Hin.
      apply (elem_of_omap_resolved _ _ (name, v)) in Hin as [key [? ?]].
      eauto.
  - intros [-> | ->]; by rewrite app_nil_r.
Qed.

(** C10: for a ticket the extractor returns the resolved user attributes in
    the order of the configured user list, then the resolved profile
    attributes in the order of the configured profile list; entries that do
    not resolve are left out and nothing is reordered. *)
Theorem get_custom_attributes_order settings t :
  let user := ticket_user t in
  let user_attr_list := getattr_default (MAMA_CAS_USER_ATTRIBUTES settings) in
  let profile_attr_list := getattr_default (MAMA_CAS_PROFILE_ATTRIBUTES settings) in
  let user_part := omap (resolved (user_fields user)) user_attr_list in
  let profile_part :=
    match get_profile user with
    | ProfileFound profile => omap (resolved (profile_fields profile)) profile_attr_list
    | _ => []
    end in
  (get_custom_attributes settings (Some t)).1 = Some (user_part ++ profile_part)
  /\ user_part.*1 `sublist_of` user_attr_list.*1
  /\ profile_part.*1 `sublist_of` profile_attr_list.*1.
Proof.
  intros user user_attr_list profile_attr_list user_part profile_part.
  split; [apply get_custom_attributes_some|].
  split; [apply omap_resolved_names|].
  subst profile_part. destruct (get_profile user).
  - apply omap_resolved_names.
  - apply sublist_nil_l.
  - apply sublist_nil_l.
Qed.

(** ** The proxy chain loop *)

Section Loop.
Implicit Types (w : World) (p : ProxyTicket) (ts : list ProxyTicket).
Implicit Types (proxies : list (option string)).

Lemma granted_by_pgt_found w p pgt :
  proxy_granting_tickets (db w) !! pt_granted_by_pgt p = Some pgt ->
  granted_by_pgt p w = Some (Return pgt, w).
Proof. intros Hpgt. unfold granted_by_pgt, fetch. by rewrite Hpgt. Qed.

Lemma granted_by_pt_null w pgt :
  pgt_granted_by_pt pgt = None ->
  granted_by_pt pgt w = Some (Return None, w).
Proof. intros Hnull. unfold granted_by_pt. by rewrite Hnull. Qed.

Lemma granted_by_pt_found w pgt id prior :
  pgt_granted_by_pt pgt = Some id ->
  proxy_tickets (db w) !! id = Some prior ->
  granted_by_pt pgt w = Some (Return (Some prior), w).
Proof.
  intros Hid Hprior. unfold granted_by_pt, bind, fetch. by rewrite Hid, Hprior.
Qed.

Lemma step_back_cases w p :
  (exists pgt, proxy_granting_tickets (db w) !! pt_granted_by_pgt p = Some pgt
               /\ pgt_granted_by_pt pgt = None
               /\ step_back p w = Some (Return None, w))
  \/ (exists prior, hop (db w) p prior
                    /\ step_back p w = Some (Return (Some prior), w))
  \/ (exists what, step_back p w = Some (Raise (ObjectDoesNotExist what), w)
                   /\ forall ts, ~ delegation_history (db w) p ts).
Proof.
  unfold step_back, bind, granted_by_pgt, granted_by_pt, fetch, bind.
  destruct (proxy_granting_tickets (db w) !! pt_granted_by_pgt p)
    as [pgt|] eqn:Hpgt.
  - destruct (pgt_granted_by_pt pgt) as [id|] eqn:Hid.
    + destruct (proxy_tickets (db w) !! id) as [prior|] eqn:Hprior.
      * right. left. exists prior. split; [|done]. by exists pgt, id.
      * right. right. eexists. split; [done|].
        intros ts Hts. inversion Hts as [? pgt' Hpgt' Hid'|? prior ? Hhop]; subst.
        -- congruence.
        -- destruct Hhop as (pgt' & id' & ? & ? & ?). congruence.
    + left. by exists pgt.
  - right. right. eexists. split; [done|].
    intros ts Hts. inversion Hts as [? pgt' Hpgt' Hid'|? prior ? Hhop]; subst.
    + congruence.
    + destruct Hhop as (pgt' & id' & ? & ? & ?). congruence.
Qed.

Lemma step_back_hop w p prior :
  hop (db w) p prior -> step_back p w = Some (Return (Some prior), w).
Proof.
  intros (pgt & id & Hpgt & Hid & Hprior). unfold step_back, bind.
  rewrite (granted_by_pgt_found _ _ _ Hpgt).
  by apply granted_by_pt_found with id.
Qed.

Lemma while_prior_pt_step fuel p proxies w :
  while_prior_pt (S fuel) (Some p) proxies w
  = match step_back p w with
    | None => None
    | Some (Return prior_pt, w') =>
      while_prior_pt fuel prior_pt (proxies ++ [pt_service p]) w'
    | Some (Raise e, w') => Some (Raise e, w')
    end.
Proof.
  simpl. unfold step_back, bind.
  destruct (granted_by_pgt p w) as [[[pgt|e] w1]|]; done.
Qed.

Lemma hop_functional d p prior prior' :
  hop d p prior -> hop d p prior' -> prior = prior'.
Proof.
  intros (pgt & id & ? & ? & ?) (pgt' & id' & ? & ? & ?). congruence.
Qed.

Lemma delegation_history_functional d p ts ts' :
  delegation_history d p ts -> delegation_history d p ts' -> ts = ts'.
Proof.
  intros Hts. revert ts'.
  induction Hts as [p pgt Hpgt Hnull|p prior ts Hhop Hts IH]; intros ts' Hts';
    inversion Hts' as [? pgt' Hpgt' Hnull'|? prior' ts'' Hhop' Hts'']; subst.
  - done.
  - destruct Hhop' as (pgt' & id' & ? & ? & ?). congruence.
  - destruct Hhop as (pgt0 & id0 & ? & ? & ?). congruence.
  - rewrite (hop_functional _ _ _ _ Hhop Hhop') in IH. by rewrite (IH _ Hts'').
Qed.

Lemma delegation_history_head d p ts :
  delegation_history d p ts -> exists rest, ts = p :: rest.
Proof. intros Hts. inversion Hts; eauto. Qed.

(** With the fuel for one run of the body per ticket that is left, the loop
    returns what it had, followed by the services of those tickets. *)
Lemma while_prior_pt_complete fuel prior_pt ts proxies w :
  remaining_history (db w) prior_pt ts ->
  length ts <= fuel ->
  while_prior_pt fuel prior_pt proxies w
  = Some (Return (proxies ++ (pt_service <$> ts)), w).
Proof.
  revert prior_pt ts proxies.
  induction fuel as [|fuel IH]; intros [p|] ts proxies Hts Hfuel;
    simpl in Hts.
  - apply delegation_history_head in Hts as [rest ->]. simpl in Hfuel. lia.
  - subst ts. simpl. unfold ret. by rewrite app_nil_r.
  - rewrite while_prior_pt_step.
    destruct (step_back_cases w p)
      as [(pgt & Hpgt & Hnull & ->)|[(prior & Hhop & ->)|(what & _ & Hno)]].
    + rewrite (delegation_history_functional _ _ _ _ Hts
                 (history_end _ _ _ Hpgt Hnull)).
      rewrite (IH None []); [|done|simpl; lia].
      simpl. by rewrite app_nil_r.
    + inversion Hts as [? pgt' Hpgt' Hnull'|? prior' rest Hhop' Hrest]; subst.
      * destruct Hhop as (pgt & id & ? & ? & ?). congruence.
      * rewrite <- (hop_functional _ _ _ _ Hhop Hhop') in Hrest.
        rewrite (IH (Some prior) rest); [|done|simpl in Hfuel; lia].
        by rewrite <- app_assoc.
    + by destruct (Hno ts).
  - subst ts. simpl. unfold ret. by rewrite app_nil_r.
Qed.

(** Whatever the fuel, a list that the loop returns is the services of a
    delegation history that the fuel covers, and the loop leaves the world
    as it was. *)
Lemma while_prior_pt_sound fuel prior_pt proxies w l w' :
  while_prior_pt fuel prior_pt proxies w = Some (Return l, w') ->
  w' = w
  /\ exists ts, remaining_history (db w) prior_pt ts
                /\ length ts <= fuel
                /\ l = proxies ++ (pt_service <$> ts).
Proof.
  revert prior_pt proxies.
  induction fuel as [|fuel IH]; intros [p|] proxies Hrun.
  - done.
  - simpl in Hrun. unfold ret in Hrun. simplify_eq. split; [done|].
    exists []. repeat split; [done|]. by rewrite app_nil_r.
  - rewrite while_prior_pt_step in Hrun.
    destruct (step_back_cases w p)
      as [(pgt & Hpgt & Hnull & Hstep)|[(prior & Hhop & Hstep)|(what & Hstep & _)]];
      rewrite Hstep in Hrun; [| |done].
    + apply IH in Hrun as [-> (ts & Hts & Hlen & ->)]. simpl in Hts. subst ts.
      split; [done|]. exists [p].
      split; [by eapply history_end|]. split; [simpl; lia|].
      by rewrite app_nil_r.
    + apply IH in Hrun as [-> (ts & Hts & Hlen & ->)]. simpl in Hts.
      split; [done|]. exists (p :: ts).
      split; [by eapply history_hop|]. split; [simpl; lia|].
      by rewrite <- app_assoc.
  - simpl in Hrun. unfold ret in Hrun. simplify_eq. split; [done|].
    exists []. repeat split; [simpl; lia|]. by rewrite app_nil_r.
Qed.

(** The only exception of the loop is that of a reference to a missing row. *)
Lemma while_prior_pt_raises fuel prior_pt proxies w e w' :
  while_prior_pt fuel prior_pt proxies w = Some (Raise e, w') ->
  exists what, e = ObjectDoesNotExist what.
Proof.
  revert prior_pt proxies.
  induction fuel as [|fuel IH]; intros [p|] proxies Hrun; try done.
  rewrite while_prior_pt_step in Hrun.
  destruct (step_back_cases w p)
    as [(pgt & Hpgt & Hnull & Hstep)|[(prior & Hhop & Hstep)|(what & Hstep & _)]];
    rewrite Hstep in Hrun.
  - by apply IH in Hrun.
  - by apply IH in Hrun.
  - simplify_eq. eauto.
Qed.

Lemma cycle_next d p :
  tc (hop d) p p -> exists prior, hop d p prior /\ tc (hop d) prior prior.
Proof.
  intros Hcycle. inversion Hcycle as [? ? Hhop|? prior ? Hhop Hback]; subst.
  - eauto.
  - exists prior. split; [done|]. eapply tc_r; eauto.
Qed.

(** On a cycle of back-references the loop finishes with no amount of fuel. *)
Lemma while_prior_pt_cycle fuel p proxies w :
  tc (hop (db w)) p p ->
  while_prior_pt fuel (Some p) proxies w = None.
Proof.
  revert p proxies. induction fuel as [|fuel IH]; intros p proxies Hcycle.
  - done.
  - rewrite while_prior_pt_step.
    apply cycle_next in Hcycle as (prior & Hhop & Hcycle).
    rewrite (step_back_hop _ _ _ Hhop). by apply IH.
Qed.

End Loop.

(** ** The validators, step by step *)

Lemma callback_url_truthy request :
  truthy (GET request !! "pgtUrl") = true <-> is_Some (callback_url request).
Proof.
  unfold callback_url, truthy.
  destruct (GET request !! "pgtUrl") as [[|a s]|]; simpl; split;
    try done; try (by intros [? ?]); by eauto.
Qed.

Lemma callback_url_param request url :
  callback_url request = Some url ->
  GET request !! "pgtUrl" = Some url /\ url <> EmptyString.
Proof.
  unfold callback_url.
  destruct (GET request !! "pgtUrl") as [[|a s]|]; intros; by simplify_eq.
Qed.

Section Runs.
Context `{TicketStore}.
Implicit Types (request : Request) (w : World) (d : DB).

Lemma validate_service_ticket_unfold request w :
  validate_service_ticket request w
  = match ST_validate_ticket (GET request !! "ticket") (GET request !! "service")
                             (GET request !! "renew") (db w) with
    | (Raise e, d) =>
      if ticket_errors e
      then Some (Return (None, None, Some e),
                 logged w (st_request_events request ++ [LogWarn e]) d)
      else Some (Raise e, logged w (st_request_events request) d)
    | (Return st, d) =>
      match callback_url request with
      | Some url =>
        let pgt := new_pgt url (st_user st) (Some st) None d in
        Some (Return (Some st, Some pgt, None),
              logged w (st_request_events request
                        ++ pgt_issue_events url (st_user st) (Some st) None)
                     (add_pgt d pgt))
      | None =>
        Some (Return (Some st, None, None), logged w (st_request_events request) d)
      end
    end.
Proof.
  unfold validate_service_ticket, try_except_else, bind, emit, call, ret,
    callback_url, logged, st_request_events, pgt_issue_events. simpl.
  destruct (ST_validate_ticket _ _ _ _) as [[st|e] d]; simpl.
  - destruct (GET request !! "pgtUrl") as [[|a s]|]; simpl;
      rewrite <- ?app_assoc; done.
  - destruct (ticket_errors e); simpl; rewrite <- ?app_assoc; done.
Qed.

Lemma validate_proxy_ticket_unfold fuel request w :
  validate_proxy_ticket fuel request w
  = match PT_validate_ticket (GET request !! "ticket") (GET request !! "service")
                             (db w) with
    | (Raise e, d) =>
      if ticket_errors e
      then Some (Return (None, None, None, Some e),
                 logged w (pt_request_events request ++ [LogWarn e]) d)
      else Some (Raise e, logged w (pt_request_events request) d)
    | (Return pt, d) =>
      let w1 := logged w (pt_request_events request) d in
      match step_back pt w1 with
      | None => None
      | Some (Raise e, w2) => Some (Raise e, w2)
      | Some (Return prior_pt, w2) =>
        match while_prior_pt fuel prior_pt [pt_service pt] w2 with
        | None => None
        | Some (Raise e, w3) => Some (Raise e, w3)
        | Some (Return proxies, w3) =>
          match callback_url request with
          | Some url =>
            let pgt := new_pgt url (pt_user pt) None (Some pt) (db w3) in
            Some (Return (Some pt, Some pgt, Some proxies, None),
                  logged w3 (pgt_issue_events url (pt_user pt) None (Some pt))
                         (add_pgt (db w3) pgt))
          | None => Some (Return (Some pt, None, Some proxies, None), w3)
          end
        end
      end
    end.
Proof.
  unfold validate_proxy_ticket, try_except_else, bind at 1, emit, call,
    callback_url, logged, pt_request_events, pgt_issue_events. simpl.
  destruct (PT_validate_ticket _ _ _) as [[pt|e] d]; simpl.
  - rewrite <- app_assoc. simpl.
    unfold step_back, bind, ret.
    destruct (granted_by_pgt pt _) as [[[pgt0|e0] w1]|]; [|done|done].
    destruct (granted_by_pt pgt0 w1) as [[[prior_pt|e1] w2]|]; [|done|done].
    destruct (while_prior_pt fuel prior_pt _ w2) as [[[proxies|e2] w3]|];
      [|done|done].
    destruct (GET request !! "pgtUrl") as [[|a s]|]; simpl; try done.
    by rewrite <- app_assoc.
  - destruct (ticket_errors e); unfold bind, ret; simpl;
      rewrite <- ?app_assoc; done.
Qed.

Lemma validate_proxy_granting_ticket_unfold request w :
  validate_proxy_granting_ticket request w
  = match PGT_validate_ticket (GET request !! "pgt")
                              (GET request !! "targetService") (db w) with
    | (Raise e, d) =>
      if pgt_errors e
      then Some (Return (None, Some e),
                 logged w (pgt_request_events request ++ [LogWarn e]) d)
      else Some (Raise e, logged w (pgt_request_events request) d)
    | (Return pgt, d) =>
      let pt := new_pt (GET request !! "targetService") (pgt_user pgt) pgt d in
      Some (Return (Some pt, None),
            logged w (pgt_request_events request
                      ++ [PT_create (GET request !! "targetService")
                                    (pgt_user pgt) pgt])
                   (add_pt d pt))
    end.
Proof.
  unfold validate_proxy_granting_ticket, try_except_else, bind, emit, call, ret,
    logged, pgt_request_events. simpl.
  destruct (PGT_validate_ticket _ _ _) as [[pgt|e] d]; simpl.
  - rewrite <- ?app_assoc. done.
  - destruct (pgt_errors e); simpl; rewrite <- ?app_assoc; done.
Qed.

End Runs.

(** ** Validation failures *)

Lemma ticket_validation_error_caught e :
  ticket_validation_error e -> ticket_errors e = true.
Proof. by intros []. Qed.

Lemma pgt_validation_error_caught e :
  pgt_validation_error e -> pgt_errors e = true.
Proof. by intros []. Qed.

Lemma filter_is_create_request_events evs evs' :
  Forall (fun ev => is_create ev = false) evs' ->
  filter (fun ev => is_create ev = true) (evs ++ evs')
  = filter (fun ev => is_create ev = true) evs.
Proof.
  intros Hnone. rewrite filter_app.
  assert (filter (fun ev => is_create ev = true) evs' = []) as ->;
    [|by rewrite app_nil_r].
  induction Hnone as [|ev rest Hev _ IH]; [done|].
  rewrite filter_cons_False; [done|congruence].
Qed.

Section Failures.
Context `{TicketStore}.
Implicit Types (request : Request) (w : World) (d : DB).

(** C2: an error of the relevant set that the store raises is returned in the
    error slot, every other slot being None; the validator returns and
    raises nothing. *)
Theorem store_errors_fill_the_error_slot request w e d :
  (ticket_validation_error e ->
   ST_validate_ticket (GET request !! "ticket") (GET request !! "service")
                      (GET request !! "renew") (db w) = (Raise e, d) ->
   validate_service_ticket request w
   = Some (Return (None, None, Some e),
           logged w (st_request_events request ++ [LogWarn e]) d))
  /\ (ticket_validation_error e ->
      PT_validate_ticket (GET request !! "ticket") (GET request !! "service")
                         (db w) = (Raise e, d) ->
      forall fuel,
        validate_proxy_ticket fuel request w
        = Some (Return (None, None, None, Some e),
                logged w (pt_request_events request ++ [LogWarn e]) d))
  /\ (pgt_validation_error e ->
      PGT_validate_ticket (GET request !! "pgt") (GET request !! "targetService")
                          (db w) = (Raise e, d) ->
      validate_proxy_granting_ticket request w
      = Some (Return (None, Some e),
              logged w (pgt_request_events request ++ [LogWarn e]) d)).
Proof.
  repeat split.
  - intros He Hraise. rewrite validate_service_ticket_unfold, Hraise.
    by rewrite (ticket_validation_error_caught _ He).
  - intros He Hraise fuel. rewrite validate_proxy_ticket_unfold, Hraise.
    by rewrite (ticket_validation_error_caught _ He).
  - intros He Hraise. rewrite validate_proxy_granting_ticket_unfold, Hraise.
    by rewrite (pgt_validation_error_caught _ He).
Qed.

(** C9: when the store's validation raises, whatever it raises and whatever
    the request carries, the validator calls no create method: the database
    is the one the failed validation left, the trace gains the request's
    events and at most the warning, and the outcome is the error, returned
    when it is caught and raised when it is not. *)
Theorem failed_validation_creates_nothing request w e d :
  (ST_validate_ticket (GET request !! "ticket") (GET request !! "service")
                      (GET request !! "renew") (db w) = (Raise e, d) ->
   exists w',
     validate_service_ticket request w
     = Some (if ticket_errors e then Return (None, None, Some e) else Raise e, w')
     /\ db w' = d
     /\ trace w' = trace w ++ st_request_events request
                   ++ (if ticket_errors e then [LogWarn e] else [])
     /\ filter (fun ev => is_create ev = true) (trace w')
        = filter (fun ev => is_create ev = true) (trace w))
  /\ (PT_validate_ticket (GET request !! "ticket") (GET request !! "service")
                         (db w) = (Raise e, d) ->
      forall fuel, exists w',
        validate_proxy_ticket fuel request w
        = Some (if ticket_errors e then Return (None, None, None, Some e)
                else Raise e, w')
        /\ db w' = d
        /\ trace w' = trace w ++ pt_request_events request
                      ++ (if ticket_errors e then [LogWarn e] else [])
        /\ filter (fun ev => is_create ev = true) (trace w')
           = filter (fun ev => is_create ev = true) (trace w))
  /\ (PGT_validate_ticket (GET request !! "pgt") (GET request !! "targetService")
                          (db w) = (Raise e, d) ->
      exists w',
        validate_proxy_granting_ticket request w
        = Some (if pgt_errors e then Return (None, Some e) else Raise e, w')
        /\ db w' = d
        /\ trace w' = trace w ++ pgt_request_events request
                      ++ (if pgt_errors e then [LogWarn e] else [])
        /\ filter (fun ev => is_create ev = true) (trace w')
           = filter (fun ev => is_create ev = true) (trace w)).
Proof.
  repeat split.
  - intros Hraise. rewrite validate_service_ticket_unfold, Hraise.
    destruct (ticket_errors e); eexists; (split; [reflexivity|]);
      simpl; rewrite ?app_nil_r; (split; [done|]); (split; [done|]);
      apply filter_is_create_request_events; repeat constructor.
  - intros Hraise fuel. rewrite validate_proxy_ticket_unfold, Hraise.
    destruct (ticket_errors e); eexists; (split; [reflexivity|]);
      simpl; rewrite ?app_nil_r; (split; [done|]); (split; [done|]);
      apply filter_is_create_request_events; repeat constructor.
  - intros Hraise. rewrite validate_proxy_granting_ticket_unfold, Hraise.
    destruct (pgt_errors e); eexists; (split; [reflexivity|]);
      simpl; rewrite ?app_nil_r; (split; [done|]); (split; [done|]);
      apply filter_is_create_request_events; repeat constructor.
Qed.

End Failures.

(** ** Successful validations *)

Lemma logged_logged w evs d evs' d' :
  logged (logged w evs d) evs' d' = logged w (evs ++ evs') d'.
Proof. unfold logged. simpl. by rewrite app_assoc. Qed.

Lemma same_user_add_pgt d pgt :
  same_user_throughout d ->
  proxy_granting_tickets d !! pgt_id pgt = None ->
  (forall j, pgt_granted_by_st pgt = Some j ->
     exists st, service_tickets d !! j = Some st /\ st_user st = pgt_user pgt) ->
  (forall j, pgt_granted_by_pt pgt = Some j ->
     exists pt, proxy_tickets d !! j = Some pt /\ pt_user pt = pgt_user pgt) ->
  same_user_throughout (add_pgt d pgt).
Proof.
  intros (Hpt & Hst & Hpgt) Hfresh Hby_st Hby_pt. unfold add_pgt.
  split; [|split]; simpl.
  - intros i pt Hi. destruct (Hpt i pt Hi) as (pgt0 & Hpgt0 & Huser).
    exists pgt0. split; [|done].
    rewrite lookup_insert_ne; [done|]. intros Heq. congruence.
  - intros i pgt0 j Hi Hj. destruct (decide (pgt_id pgt = i)) as [<-|Hne].
    + rewrite lookup_insert_eq in Hi. simplify_eq. by apply Hby_st.
    + rewrite lookup_insert_ne in Hi by done. by eapply Hst.
  - intros i pgt0 j Hi Hj. destruct (decide (pgt_id pgt = i)) as [<-|Hne].
    + rewrite lookup_insert_eq in Hi. simplify_eq. by apply Hby_pt.
    + rewrite lookup_insert_ne in Hi by done. by eapply Hpgt.
Qed.

Lemma same_user_add_pt d pt :
  same_user_throughout d ->
  proxy_tickets d !! pt_id pt = None ->
  (exists pgt, proxy_granting_tickets d !! pt_granted_by_pgt pt = Some pgt
               /\ pgt_user pgt = pt_user pt) ->
  same_user_throughout (add_pt d pt).
Proof.
  intros (Hpt & Hst & Hpgt) Hfresh Hby_pgt. unfold add_pt.
  split; [|split]; simpl.
  - intros i pt0 Hi. destruct (decide (pt_id pt = i)) as [<-|Hne].
    + rewrite lookup_insert_eq in Hi. by simplify_eq.
    + rewrite lookup_insert_ne in Hi by done. by eapply Hpt.
  - done.
  - intros i pgt j Hi Hj. destruct (Hpgt i pgt j Hi Hj) as (pt0 & Hpt0 & Huser).
    exists pt0. split; [|done].
    rewrite lookup_insert_ne; [done|]. intros Heq. congruence.
Qed.

(** In a database that keeps users throughout, all the tickets of a
    delegation history of a stored ticket have the user of that ticket. *)
Lemma same_user_history d pt ts :
  same_user_throughout d ->
  (exists i, proxy_tickets d !! i = Some pt) ->
  delegation_history d pt ts ->
  Forall (fun t => pt_user t = pt_user pt) ts.
Proof.
  intros (Hpt & Hst & Hpgt) Hstored Hts.
  induction Hts as [pt pgt _ _|pt prior ts Hhop Hts IH].
  - by repeat constructor.
  - constructor; [done|].
    destruct Hstored as [i Hi]. destruct (Hpt i pt Hi) as (pgt & Hpgt0 & Huser).
    destruct Hhop as (pgt' & id & Hpgt' & Hid & Hprior).
    assert (pgt' = pgt) as -> by congruence.
    destruct (Hpgt _ _ _ Hpgt0 Hid) as (prior' & Hprior' & Huser').
    assert (prior' = prior) as -> by congruence.
    assert (pt_user prior = pt_user pt) as Heq by congruence.
    eapply Forall_impl; [apply IH; eauto|].
    intros t Ht. simpl in Ht. congruence.
Qed.

Section Successes.
Context `{TicketStore}.
Implicit Types (request : Request) (w : World) (d : DB).

Lemma new_pgt_fresh url user granted_by_st granted_by_pt d :
  proxy_granting_tickets d
    !! pgt_id (new_pgt url user granted_by_st granted_by_pt d) = None.
Proof. simpl. apply not_elem_of_dom, is_fresh. Qed.

Lemma new_pt_fresh service user pgt d :
  proxy_tickets d !! pt_id (new_pt service user pgt d) = None.
Proof. simpl. apply not_elem_of_dom, is_fresh. Qed.

(** The proxy validator on a ticket whose delegation history is [ts]. *)
Lemma validate_proxy_ticket_history fuel request w pt d ts :
  PT_validate_ticket (GET request !! "ticket") (GET request !! "service") (db w)
  = (Return pt, d) ->
  delegation_history d pt ts ->
  length ts <= S fuel ->
  validate_proxy_ticket fuel request w
  = match callback_url request with
    | Some url =>
      let pgt := new_pgt url (pt_user pt) None (Some pt) d in
      Some (Return (Some pt, Some pgt, Some (pt_service <$> ts), None),
            logged w (pt_request_events request
                      ++ pgt_issue_events url (pt_user pt) None (Some pt))
                   (add_pgt d pgt))
    | None =>
      Some (Return (Some pt, None, Some (pt_service <$> ts), None),
            logged w (pt_request_events request) d)
    end.
Proof.
  intros Hvalid Hts Hfuel. rewrite validate_proxy_ticket_unfold, Hvalid.
  cbv zeta. set (w1 := logged w (pt_request_events request) d).
  assert (exists prior_pt rest,
             step_back pt w1 = Some (Return prior_pt, w1)
             /\ remaining_history (db w1) prior_pt rest
             /\ ts = pt :: rest) as (prior_pt & rest & -> & Hrest & ->).
  { inversion Hts as [? pgt Hpgt Hnull|? prior rest Hhop Hrest]; subst.
    - exists None, []. split; [|done].
      unfold step_back, bind.
      rewrite (granted_by_pgt_found w1 _ _ Hpgt).
      by apply granted_by_pt_null.
    - exists (Some prior), rest. split; [|done]. by apply step_back_hop. }
  rewrite (while_prior_pt_complete fuel prior_pt rest); [|done|simpl in Hfuel; lia].
  destruct (callback_url request) as [url|]; [|done].
  subst w1. by rewrite logged_logged.
Qed.

(** A result of the proxy validator for a ticket that the store accepted: the
    ticket has a delegation history, and the result is the one above. *)
Lemma validate_proxy_ticket_returns fuel request w pt d r w' :
  PT_validate_ticket (GET request !! "ticket") (GET request !! "service") (db w)
  = (Return pt, d) ->
  validate_proxy_ticket fuel request w = Some (Return r, w') ->
  exists ts, delegation_history d pt ts /\ length ts <= S fuel.
Proof.
  intros Hvalid Hrun. rewrite validate_proxy_ticket_unfold, Hvalid in Hrun.
  cbv zeta in Hrun. set (w1 := logged w (pt_request_events request) d) in Hrun.
  destruct (step_back_cases w1 pt)
    as [(pgt & Hpgt & Hnull & Hstep)|[(prior & Hhop & Hstep)|(what & Hstep & _)]];
    rewrite Hstep in Hrun; [| |done].
  - exists [pt]. split; [by eapply history_end|simpl; lia].
  - destruct (while_prior_pt fuel (Some prior) [pt_service pt] w1)
      as [[[proxies|e] w3]|] eqn:Hloop; [|done|done].
    apply while_prior_pt_sound in Hloop as [-> (ts & Hts & Hlen & ->)].
    simpl in Hts. exists (pt :: ts).
    split; [by eapply history_hop|simpl; lia].
Qed.

Lemma no_callback_url_falsy request :
  callback_url request = None -> truthy (GET request !! "pgtUrl") = false.
Proof.
  intros Hnone. destruct (truthy _) eqn:Htruthy; [|done].
  apply callback_url_truthy in Htruthy as [url Hurl]. congruence.
Qed.

(** C1: for a proxy ticket that the store accepted and whose delegation
    history is ts, the validator returns, with fuel for the prior tickets,
    the services of ts as the proxy chain, and no run returns another chain.
    The chain starts with the ticket's own service, is not empty, has as many
    elements as the history has tickets, and is the ticket's service alone
    when its proxy-granting ticket was granted by a service ticket. *)
Theorem proxy_chain_is_delegation_history fuel request w pt d ts :
  PT_validate_ticket (GET request !! "ticket") (GET request !! "service") (db w)
  = (Return pt, d) ->
  delegation_history d pt ts ->
  length ts <= S fuel ->
  (exists pgt w',
      validate_proxy_ticket fuel request w
      = Some (Return (Some pt, pgt, Some (pt_service <$> ts), None), w'))
  /\ (forall fuel' r w',
        validate_proxy_ticket fuel' request w = Some (Return r, w') ->
        r.1.2 = Some (pt_service <$> ts))
  /\ head (pt_service <$> ts) = Some (pt_service pt)
  /\ pt_service <$> ts <> []
  /\ length (pt_service <$> ts) = length ts
  /\ (forall pgt0,
        proxy_granting_tickets d !! pt_granted_by_pgt pt = Some pgt0 ->
        granted_by_service_ticket pgt0 ->
        pt_service <$> ts = [pt_service pt]).
Proof.
  intros Hvalid Hts Hfuel.
  destruct (delegation_history_head _ _ _ Hts) as [rest ->].
  split; [|split; [|split; [done|split; [done|split]]]].
  - rewrite (validate_proxy_ticket_history _ _ _ _ _ _ Hvalid Hts Hfuel).
    destruct (callback_url request); eauto.
  - intros fuel' r w' Hrun.
    destruct (validate_proxy_ticket_returns _ _ _ _ _ _ _ Hvalid Hrun)
      as (ts' & Hts' & Hfuel').
    rewrite (delegation_history_functional _ _ _ _ Hts' Hts) in Hfuel'.
    rewrite (validate_proxy_ticket_history _ _ _ _ _ _ Hvalid Hts Hfuel') in Hrun.
    destruct (callback_url request); cbv zeta in Hrun; by simplify_eq.
  - by rewrite length_fmap.
  - intros pgt0 Hpgt0 [_ Hnull].
    by rewrite (delegation_history_functional _ _ _ _ Hts
                  (history_end _ _ _ Hpgt0 Hnull)).
Qed.

(** C3: when the store accepts the ticket, the service validator and the
    proxy validator return the ticket and no error, and a proxy-granting
    ticket exactly when the request has a callback URL (a pgtUrl that is not
    empty): then it is a new row of the database, granted by the validated
    ticket, for that URL; without one the slot is None.  When the store
    rejects the ticket no proxy-granting ticket is returned. *)
Theorem pgt_issued_iff_callback_url request w :
  (forall st d,
     ST_validate_ticket (GET request !! "ticket") (GET request !! "service")
                        (GET request !! "renew") (db w) = (Return st, d) ->
     exists pgt w',
       validate_service_ticket request w = Some (Return (Some st, pgt, None), w')
       /\ (is_Some pgt <-> truthy (GET request !! "pgtUrl") = true)
       /\ (forall g, pgt = Some g ->
             proxy_granting_tickets d !! pgt_id g = None
             /\ proxy_granting_tickets (db w') !! pgt_id g = Some g
             /\ pgt_granted_by_st g = Some (st_id st)
             /\ pgt_granted_by_pt g = None
             /\ GET request !! "pgtUrl" = Some (pgt_callback g))
       /\ (pgt = None -> db w' = d))
  /\ (forall e d r w',
        ST_validate_ticket (GET request !! "ticket") (GET request !! "service")
                           (GET request !! "renew") (db w) = (Raise e, d) ->
        validate_service_ticket request w = Some (Return r, w') ->
        r.1.2 = None)
  /\ (forall fuel pt d ts,
        PT_validate_ticket (GET request !! "ticket") (GET request !! "service")
                           (db w) = (Return pt, d) ->
        delegation_history d pt ts ->
        length ts <= S fuel ->
        exists pgt w',
          validate_proxy_ticket fuel request w
          = Some (Return (Some pt, pgt, Some (pt_service <$> ts), None), w')
          /\ (is_Some pgt <-> truthy (GET request !! "pgtUrl") = true)
          /\ (forall g, pgt = Some g ->
                proxy_granting_tickets d !! pgt_id g = None
                /\ proxy_granting_tickets (db w') !! pgt_id g = Some g
                /\ pgt_granted_by_pt g = Some (pt_id pt)
                /\ pgt_granted_by_st g = None
                /\ GET request !! "pgtUrl" = Some (pgt_callback g))
          /\ (pgt = None -> db w' = d))
  /\ (forall fuel e d r w',
        PT_validate_ticket (GET request !! "ticket") (GET request !! "service")
                           (db w) = (Raise e, d) ->
        validate_proxy_ticket fuel request w = Some (Return r, w') ->
        r.1.1.2 = None).
Proof.
  split; [|split; [|split]].
  - intros st d Hvalid. rewrite validate_service_ticket_unfold, Hvalid.
    destruct (callback_url request) as [url|] eqn:Hurl.
    + eexists _, _. split; [reflexivity|].
      split; [split; [intros _; apply callback_url_truthy; by rewrite Hurl|by eauto]|].
      split; [|done]. intros g Hg. simplify_eq.
      split; [apply new_pgt_fresh|]. split; [apply lookup_insert_eq|].
      repeat split. simpl. by apply callback_url_param.
    + eexists _, _. split; [reflexivity|].
      rewrite (no_callback_url_falsy _ Hurl).
      split; [split; [by intros [? ?]|done]|]. by split.
  - intros e d r w' Hraise. rewrite validate_service_ticket_unfold, Hraise.
    destruct (ticket_errors e); intros; by simplify_eq.
  - intros fuel pt d ts Hvalid Hts Hfuel.
    rewrite (validate_proxy_ticket_history _ _ _ _ _ _ Hvalid Hts Hfuel).
    destruct (callback_url request) as [url|] eqn:Hurl.
    + eexists _, _. split; [reflexivity|].
      split; [split; [intros _; apply callback_url_truthy; by rewrite Hurl|by eauto]|].
      split; [|done]. intros g Hg. simplify_eq.
      split; [apply new_pgt_fresh|]. split; [apply lookup_insert_eq|].
      repeat split. simpl. by apply callback_url_param.
    + eexists _, _. split; [reflexivity|].
      rewrite (no_callback_url_falsy _ Hurl).
      split; [split; [by intros [? ?]|done]|]. by split.
  - intros fuel e d r w' Hraise. rewrite validate_proxy_ticket_unfold, Hraise.
    destruct (ticket_errors e); intros; by simplify_eq.
Qed.

(** C4: when the store accepts the proxy-granting ticket, the validator
    returns the pair of a proxy ticket and no error.  The proxy ticket is for
    the requested target service, has the user of the proxy-granting ticket
    and is granted by it; it is the one row that was added to the database,
    by the one create call of the run. *)
Theorem pgt_validation_issues_one_proxy_ticket request w pgt d :
  PGT_validate_ticket (GET request !! "pgt") (GET request !! "targetService") (db w)
  = (Return pgt, d) ->
  exists pt w',
    validate_proxy_granting_ticket request w = Some (Return (Some pt, None), w')
    /\ pt_service pt = GET request !! "targetService"
    /\ pt_user pt = pgt_user pgt
    /\ pt_granted_by_pgt pt = pgt_id pgt
    /\ proxy_tickets d !! pt_id pt = None
    /\ proxy_tickets (db w') = <[pt_id pt := pt]> (proxy_tickets d)
    /\ size (proxy_tickets (db w')) = S (size (proxy_tickets d))
    /\ service_tickets (db w') = service_tickets d
    /\ proxy_granting_tickets (db w') = proxy_granting_tickets d
    /\ trace w' = trace w ++ pgt_request_events request
                  ++ [PT_create (GET request !! "targetService") (pgt_user pgt) pgt].
Proof.
  intros Hvalid. rewrite validate_proxy_granting_ticket_unfold, Hvalid.
  eexists _, _. split; [reflexivity|]. simpl.
  repeat split.
  - apply not_elem_of_dom, is_fresh.
  - apply map_size_insert_None, not_elem_of_dom, is_fresh.
Qed.

(** C5: the proxy-granting ticket that the service validator issues has the
    user of the service ticket, the one that the proxy validator issues has
    the user of the proxy ticket, and the proxy ticket that the
    proxy-granting ticket validator issues has the user of the
    proxy-granting ticket.  So a database in which every derived ticket has
    the user of the ticket behind it stays so when the validated ticket is
    one of its rows, and in such a database all tickets of a delegation
    history have one user. *)
Theorem derived_tickets_keep_the_user request w :
  (forall st d,
     ST_validate_ticket (GET request !! "ticket") (GET request !! "service")
                        (GET request !! "renew") (db w) = (Return st, d) ->
     exists pgt w',
       validate_service_ticket request w = Some (Return (Some st, pgt, None), w')
       /\ (forall g, pgt = Some g -> pgt_user g = st_user st)
       /\ (same_user_throughout d ->
           service_tickets d !! st_id st = Some st ->
           same_user_throughout (db w')))
  /\ (forall fuel pt d r w',
        PT_validate_ticket (GET request !! "ticket") (GET request !! "service")
                           (db w) = (Return pt, d) ->
        validate_proxy_ticket fuel request w = Some (Return r, w') ->
        exists pgt proxies,
          r = (Some pt, pgt, Some proxies, None)
          /\ (forall g, pgt = Some g -> pgt_user g = pt_user pt)
          /\ (same_user_throughout d ->
              proxy_tickets d !! pt_id pt = Some pt ->
              same_user_throughout (db w')))
  /\ (forall pgt d,
        PGT_validate_ticket (GET request !! "pgt") (GET request !! "targetService")
                            (db w) = (Return pgt, d) ->
        exists pt w',
          validate_proxy_granting_ticket request w
          = Some (Return (Some pt, None), w')
          /\ pt_user pt = pgt_user pgt
          /\ (same_user_throughout d ->
              proxy_granting_tickets d !! pgt_id pgt = Some pgt ->
              same_user_throughout (db w')))
  /\ (forall d pt ts,
        same_user_throughout d ->
        (exists i, proxy_tickets d !! i = Some pt) ->
        delegation_history d pt ts ->
        Forall (fun t => pt_user t = pt_user pt) ts).
Proof.
  split; [|split; [|split]].
  - intros st d Hvalid. rewrite validate_service_ticket_unfold, Hvalid.
    destruct (callback_url request) as [url|].
    + eexists _, _. split; [reflexivity|].
      split; [intros g Hg; by simplify_eq|].
      intros Hsame Hstored. simpl.
      apply same_user_add_pgt; [done|apply new_pgt_fresh| |done].
      simpl. intros j Hj. simplify_eq. eauto.
    + eexists _, _. split; [reflexivity|]. by split.
  - intros fuel pt d r w' Hvalid Hrun.
    destruct (validate_proxy_ticket_returns _ _ _ _ _ _ _ Hvalid Hrun)
      as (ts & Hts & Hfuel).
    rewrite (validate_proxy_ticket_history _ _ _ _ _ _ Hvalid Hts Hfuel) in Hrun.
    destruct (callback_url request) as [url|]; cbv zeta in Hrun; simplify_eq.
    + eexists _, _. split; [reflexivity|].
      split; [intros g Hg; by simplify_eq|].
      intros Hsame Hstored. simpl.
      apply same_user_add_pgt; [done|apply new_pgt_fresh|done|].
      simpl. intros j Hj. simplify_eq. eauto.
    + eexists _, _. split; [reflexivity|]. by split.
  - intros pgt d Hvalid. rewrite validate_proxy_granting_ticket_unfold, Hvalid.
    eexists _, _. split; [reflexivity|]. split; [done|].
    intros Hsame Hstored. simpl.
    apply same_user_add_pt; [done|apply new_pt_fresh|]. simpl. eauto.
  - intros d pt ts. apply same_user_history.
Qed.

(** C6, as the code has it: from any entry point the loop returns, with fuel
    for the tickets that are left, what it had followed by the services of
    a finite history, leaving the world as it was.  It has no bound and no
    check for a repeated reference: entered on a ticket that lies on a cycle
    of back-references it finishes with no amount of fuel, and it never
    raises an InternalError. *)
Theorem while_prior_pt_finite_or_endless prior_pt proxies w :
  (forall ts fuel,
     remaining_history (db w) prior_pt ts ->
     length ts <= fuel ->
     while_prior_pt fuel prior_pt proxies w
     = Some (Return (proxies ++ (pt_service <$> ts)), w))
  /\ (forall p fuel,
        prior_pt = Some p ->
        tc (hop (db w)) p p ->
        while_prior_pt fuel prior_pt proxies w = None)
  /\ (forall fuel msg w',
        while_prior_pt fuel prior_pt proxies w <> Some (Raise (InternalError msg), w')).
Proof.
  split; [|split].
  - intros ts fuel Hts Hfuel. by apply while_prior_pt_complete.
  - intros p fuel -> Hcycle. by apply while_prior_pt_cycle.
  - intros fuel msg w' Hrun.
    by apply while_prior_pt_raises in Hrun as [what ?].
Qed.

End Successes.

(** ** The sample data at work *)

Lemma sample_history : delegation_history sample_db pt2 [pt2; pt1].
Proof.
  apply history_hop with pt1.
  - exists pgt2, 1. by vm_compute.
  - apply history_end with pgt1; by vm_compute.
Qed.

Lemma pt_loop_cycle : tc (hop cyclic_db) pt_loop pt_loop.
Proof. apply tc_once. exists pgt_loop, 1. by vm_compute. Qed.

Example bob_custom_attributes :
  get_custom_attributes sample_settings (Some (TicketST st1))
  = (Some [("mail", VStr "bob@example.com"); ("alias", VStr "bobby")],
     [LogWarnMsg "User has no attribute named 'telephone'"]).
Proof. by vm_compute. Qed.

Example alice_custom_attributes :
  get_custom_attributes sample_settings (Some (TicketST st2))
  = (Some [("mail", VStr "alice@example.com")],
     [LogWarnMsg "User has no attribute named 'telephone'"]).
Proof. by vm_compute. Qed.

Example service_validation_without_callback :
  @validate_service_ticket lookup_store sample_st_request sample_world
  = Some (Return (Some st1, None, None),
          logged sample_world (st_request_events sample_st_request) sample_db).
Proof. by vm_compute. Qed.

Example proxy_validation_with_callback :
  match @validate_proxy_ticket lookup_store 1 sample_pt_pgt_request sample_world with
  | Some (Return (Some pt, Some pgt, Some proxies, None), w') =>
    pt = pt2
    /\ proxies = [Some "https://c.example"; Some "https://b.example"]
    /\ pgt_id pgt = 3
    /\ pgt_granted_by_pt pgt = Some 2
    /\ pgt_user pgt = bob
    /\ proxy_granting_tickets (db w') !! 3 = Some pgt
  | _ => False
  end.
Proof. by vm_compute. Qed.

Example proxy_validation_without_fuel :
  @validate_proxy_ticket lookup_store 0 sample_pt_request sample_world = None.
Proof. by vm_compute. Qed.

Lemma proxy_chain_is_delegation_history_witness :
  exists pgt w',
    @validate_proxy_ticket lookup_store 1 sample_pt_request sample_world
    = Some (Return (Some pt2, pgt,
                    Some [Some "https://c.example"; Some "https://b.example"],
                    None), w').
Proof.
  destruct (@proxy_chain_is_delegation_history lookup_store 1 sample_pt_request
              sample_world pt2 sample_db [pt2; pt1]) as [Hrun _].
  - by vm_compute.
  - apply sample_history.
  - simpl. lia.
  - exact Hrun.
Defined.

Lemma store_errors_fill_the_error_slot_witness :
  @validate_service_ticket lookup_store expired_st_request sample_world
  = Some (Return (None, None, Some (InvalidTicketError "ST-expired")),
          logged sample_world
                 (st_request_events expired_st_request
                  ++ [LogWarn (InvalidTicketError "ST-expired")]) sample_db)
  /\ @validate_proxy_ticket lookup_store 0 unknown_pt_request sample_world
     = Some (Return (None, None, None, Some (InvalidTicketError "PT-unknown")),
             logged sample_world
                    (pt_request_events unknown_pt_request
                     ++ [LogWarn (InvalidTicketError "PT-unknown")]) sample_db)
  /\ @validate_proxy_granting_ticket lookup_store bad_pgt_request sample_world
     = Some (Return (None, Some (BadPGTError "PGT-unknown")),
             logged sample_world
                    (pgt_request_events bad_pgt_request
                     ++ [LogWarn (BadPGTError "PGT-unknown")]) sample_db).
Proof.
  split; [|split].
  - apply (proj1 (@store_errors_fill_the_error_slot lookup_store
                    expired_st_request sample_world
                    (InvalidTicketError "ST-expired") sample_db)).
    + constructor.
    + by vm_compute.
  - apply (proj1 (proj2 (@store_errors_fill_the_error_slot lookup_store
                           unknown_pt_request sample_world
                           (InvalidTicketError "PT-unknown") sample_db))).
    + constructor.
    + by vm_compute.
  - apply (proj2 (proj2 (@store_errors_fill_the_error_slot lookup_store
                           bad_pgt_request sample_world
                           (BadPGTError "PGT-unknown") sample_db))).
    + constructor.
    + by vm_compute.
Defined.

Lemma pgt_issued_iff_callback_url_witness :
  (exists g w',
      @validate_service_ticket lookup_store sample_st_pgt_request sample_world
      = Some (Return (Some st1, Some g, None), w')
      /\ pgt_granted_by_st g = Some 1
      /\ pgt_callback g = "https://a.example/callback")
  /\ (exists w',
         @validate_service_ticket lookup_store sample_st_request sample_world
         = Some (Return (Some st1, None, None), w')).
Proof.
  split.
  - destruct (proj1 (@pgt_issued_iff_callback_url lookup_store
                       sample_st_pgt_request sample_world) st1 sample_db)
      as (pgt & w' & Hrun & Hiff & Hnew & _); [by vm_compute|].
    destruct (proj2 Hiff) as [g ->]; [by vm_compute|].
    destruct (Hnew g eq_refl) as (_ & _ & Hby_st & _ & Hurl).
    exists g, w'. split; [exact Hrun|]. split; [exact Hby_st|].
    assert (GET sample_st_pgt_request !! "pgtUrl"
            = Some "https://a.example/callback") as Hget by (by vm_compute).
    congruence.
  - destruct (proj1 (@pgt_issued_iff_callback_url lookup_store
                       sample_st_request sample_world) st1 sample_db)
      as (pgt & w' & Hrun & Hiff & _); [by vm_compute|].
    destruct pgt as [g|].
    + assert (truthy (GET sample_st_request !! "pgtUrl") = true) as Htruthy
        by (apply Hiff; by eexists).
      vm_compute in Htruthy. discriminate Htruthy.
    + by exists w'.
Defined.

Lemma pgt_validation_issues_one_proxy_ticket_witness :
  exists pt w',
    @validate_proxy_granting_ticket lookup_store sample_pgt_request sample_world
    = Some (Return (Some pt, None), w')
    /\ pt_service pt = Some "https://d.example"
    /\ pt_user pt = bob
    /\ pt_granted_by_pgt pt = 2.
Proof.
  destruct (@pgt_validation_issues_one_proxy_ticket lookup_store
              sample_pgt_request sample_world pgt2 sample_db)
    as (pt & w' & Hrun & Hservice & Huser & Hby & _); [by vm_compute|].
  exists pt, w'. split; [exact Hrun|].
  split; [rewrite Hservice; by vm_compute|]. by split.
Defined.

Lemma derived_tickets_keep_the_user_witness :
  exists pt w',
    @validate_proxy_granting_ticket lookup_store sample_pgt_request sample_world
    = Some (Return (Some pt, None), w')
    /\ pt_user pt = pgt_user pgt2.
Proof.
  destruct (proj1 (proj2 (proj2 (@derived_tickets_keep_the_user lookup_store
                                   sample_pgt_request sample_world)))
              pgt2 sample_db)
    as (pt & w' & Hrun & Huser & _); [by vm_compute|].
  by exists pt, w'.
Defined.

Lemma while_prior_pt_finite_or_endless_witness :
  while_prior_pt 1 (Some pt1) [Some "https://c.example"] sample_world
  = Some (Return [Some "https://c.example"; Some "https://b.example"],
          sample_world)
  /\ while_prior_pt 7 (Some pt_loop) [] cyclic_world = None.
Proof.
  split.
  - apply (proj1 (while_prior_pt_finite_or_endless (Some pt1)
                    [Some "https://c.example"] sample_world) [pt1] 1).
    + apply history_end with pgt1; by vm_compute.
    + simpl. lia.
  - apply (proj1 (proj2 (while_prior_pt_finite_or_endless (Some pt_loop) []
                           cyclic_world)) pt_loop 7 eq_refl).
    apply pt_loop_cycle.
Defined.

Lemma failed_validation_creates_nothing_witness :
  exists w',
    @validate_service_ticket lookup_store expired_st_request sample_world
    = Some (Return (None, None, Some (InvalidTicketError "ST-expired")), w')
    /\ db w' = sample_db
    /\ filter (fun ev => is_create ev = true) (trace w') = [].
Proof.
  destruct (proj1 (@failed_validation_creates_nothing lookup_store
                     expired_st_request sample_world
                     (InvalidTicketError "ST-expired") sample_db))
    as (w' & Hrun & Hdb & _ & Hcreate); [by vm_compute|].
  exists w'. split; [exact Hrun|]. by split.
Defined.

(** Against C6 as it is stated: on a ticket that lies on a cycle of
    back-references the validator finishes with no fuel at all, so no run
    turns the repetition into an InternalError, or into any result. *)
Lemma cycle_is_not_reported :
  ~ exists fuel r,
      @validate_proxy_ticket lookup_store fuel loop_request cyclic_world = Some r.
Proof.
  intros (fuel & r & Hrun).
  rewrite validate_proxy_ticket_unfold in Hrun.
  assert (@PT_validate_ticket lookup_store (GET loop_request !! "ticket")
            (GET loop_request !! "service") (db cyclic_world)
          = (Return pt_loop, cyclic_db)) as Hvalid by (by vm_compute).
  rewrite Hvalid in Hrun. cbv zeta in Hrun.
  pose proof pt_loop_cycle as Hcycle.
  apply cycle_next in Hcycle as (prior & Hhop & Hcycle).
  rewrite (step_back_hop
             (logged cyclic_world (pt_request_events loop_request) cyclic_db)
             pt_loop prior Hhop) in Hrun.
  by rewrite while_prior_pt_cycle in Hrun.
Qed.

(** * Further properties of the validators *)

Lemma ticket_errors_spec e :
  ticket_errors e = false <-> ~ ticket_validation_error e.
Proof.
  split.
  - intros Hfalse He. apply ticket_validation_error_caught in He. congruence.
  - intros Hnot. destruct e; try done; exfalso; apply Hnot; constructor.
Qed.

Lemma pgt_errors_spec e :
  pgt_errors e = false <-> ~ pgt_validation_error e.
Proof.
  split.
  - intros Hfalse He. apply pgt_validation_error_caught in He. congruence.
  - intros Hnot. destruct e; try done; exfalso; apply Hnot; constructor.
Qed.

Lemma hop_no_end d p prior pgt :
  hop d p prior ->
  proxy_granting_tickets d !! pt_granted_by_pgt p = Some pgt ->
  pgt_granted_by_pt pgt = None -> False.
Proof. intros (pgt' & id & ? & ? & ?) ? ?. congruence. Qed.

(** An exception of the loop: the world is untouched, the exception is that
    of a missing row, and the entry point has no delegation history. *)
Lemma while_prior_pt_raises_world fuel prior_pt proxies w e w' :
  while_prior_pt fuel prior_pt proxies w = Some (Raise e, w') ->
  w' = w
  /\ (exists what, e = ObjectDoesNotExist what)
  /\ forall ts, ~ remaining_history (db w) prior_pt ts.
Proof.
  revert prior_pt proxies.
  induction fuel as [|fuel IH]; intros [p|] proxies Hrun; try done.
  rewrite while_prior_pt_step in Hrun.
  destruct (step_back_cases w p)
    as [(pgt & Hpgt & Hnull & Hstep)|[(prior & Hhop & Hstep)|(what & Hstep & Hno)]];
    rewrite Hstep in Hrun.
  - apply IH in Hrun as (_ & _ & Hno). by destruct (Hno []).
  - apply IH in Hrun as (-> & Hwhat & Hno). split; [done|]. split; [done|].
    intros ts Hts. simpl in Hts.
    inversion Hts as [? pgt Hpgt Hnull|? prior' rest Hhop' Hrest]; subst.
    + by eapply hop_no_end.
    + rewrite <- (hop_functional _ _ _ _ Hhop Hhop') in Hrest.
      by apply (Hno rest).
  - simplify_eq. split; [done|]. split; [by eauto|]. done.
Qed.

(** With less fuel than tickets that are left, the loop does not finish. *)
Lemma while_prior_pt_starved fuel prior_pt proxies w ts :
  remaining_history (db w) prior_pt ts ->
  fuel < length ts ->
  while_prior_pt fuel prior_pt proxies w = None.
Proof.
  revert prior_pt proxies ts.
  induction fuel as [|fuel IH]; intros [p|] proxies ts Hts Hfuel;
    simpl in Hts; try (subst ts; simpl in Hfuel; lia); [done|].
  rewrite while_prior_pt_step.
  destruct (step_back_cases w p)
    as [(pgt & Hpgt & Hnull & Hstep)|[(prior & Hhop & Hstep)|(what & Hstep & Hno)]];
    rewrite Hstep.
  - rewrite (delegation_history_functional _ _ _ _ Hts
               (history_end _ _ _ Hpgt Hnull)) in Hfuel.
    simpl in Hfuel. lia.
  - inversion Hts as [? pgt Hpgt Hnull|? prior' rest Hhop' Hrest]; subst.
    + exfalso. by eapply hop_no_end.
    + rewrite <- (hop_functional _ _ _ _ Hhop Hhop') in Hrest.
      apply (IH (Some prior) _ rest); [done|simpl in Hfuel; lia].
  - by destruct (Hno ts).
Qed.

Lemma delegation_history_rows_kept d d' pt ts :
  rows_kept d d' ->
  delegation_history d pt ts ->
  delegation_history d' pt ts.
Proof.
  intros (_ & Hpts & Hpgts) Hts.
  induction Hts as [pt pgt Hpgt Hnull|pt prior ts Hhop _ IH].
  - apply history_end with pgt; [|done]. by eapply lookup_weaken.
  - apply history_hop with prior; [|done].
    destruct Hhop as (pgt & id & Hpgt & Hid & Hprior).
    exists pgt, id. repeat split; [|done|]; by eapply lookup_weaken.
Qed.

Lemma rows_kept_refl d : rows_kept d d.
Proof. by repeat split. Qed.

Lemma rows_kept_trans d1 d2 d3 :
  rows_kept d1 d2 -> rows_kept d2 d3 -> rows_kept d1 d3.
Proof.
  intros (? & ? & ?) (? & ? & ?). repeat split; by etrans.
Qed.

Lemma rows_kept_add_pgt d pgt :
  proxy_granting_tickets d !! pgt_id pgt = None -> rows_kept d (add_pgt d pgt).
Proof.
  intros Hfresh. repeat split; simpl; [done|done|]. by apply insert_subseteq.
Qed.

Lemma rows_kept_add_pt d pt :
  proxy_tickets d !! pt_id pt = None -> rows_kept d (add_pt d pt).
Proof.
  intros Hfresh. repeat split; simpl; [done| |done]. by apply insert_subseteq.
Qed.

Section Outcomes.
Context `{TicketStore}.
Implicit Types (request : Request) (w : World) (d : DB).

(** Every finished run of the proxy validator is one of three: the store
    raised; the store accepted a ticket with a delegation history that the
    fuel covers; the store accepted a ticket and a back-reference points to a
    missing row. *)
Lemma validate_proxy_ticket_outcomes fuel request w o w' :
  validate_proxy_ticket fuel request w = Some (o, w') ->
  (exists e d,
      PT_validate_ticket (GET request !! "ticket") (GET request !! "service")
                         (db w) = (Raise e, d)
      /\ o = (if ticket_errors e then Return (None, None, None, Some e)
              else Raise e)
      /\ w' = logged w (pt_request_events request
                        ++ (if ticket_errors e then [LogWarn e] else [])) d)
  \/ (exists pt d ts,
         PT_validate_ticket (GET request !! "ticket") (GET request !! "service")
                            (db w) = (Return pt, d)
         /\ delegation_history d pt ts
         /\ length ts <= S fuel
         /\ match callback_url request with
            | Some url =>
              o = Return (Some pt,
                          Some (new_pgt url (pt_user pt) None (Some pt) d),
                          Some (pt_service <$> ts), None)
              /\ w' = logged w (pt_request_events request
                                ++ pgt_issue_events url (pt_user pt) None (Some pt))
                             (add_pgt d (new_pgt url (pt_user pt) None (Some pt) d))
            | None =>
              o = Return (Some pt, None, Some (pt_service <$> ts), None)
              /\ w' = logged w (pt_request_events request) d
            end)
  \/ (exists pt d what,
         PT_validate_ticket (GET request !! "ticket") (GET request !! "service")
                            (db w) = (Return pt, d)
         /\ o = Raise (ObjectDoesNotExist what)
         /\ w' = logged w (pt_request_events request) d
         /\ forall ts, ~ delegation_history d pt ts).
Proof.
  intros Hrun.
  destruct (PT_validate_ticket (GET request !! "ticket") (GET request !! "service")
                               (db w)) as [[pt|e] d] eqn:Hvalid.
  - destruct o as [r|e].
    + right. left.
      destruct (validate_proxy_ticket_returns _ _ _ _ _ _ _ Hvalid Hrun)
        as (ts & Hts & Hfuel).
      exists pt, d, ts. split; [done|]. split; [done|]. split; [done|].
      rewrite (validate_proxy_ticket_history _ _ _ _ _ _ Hvalid Hts Hfuel) in Hrun.
      destruct (callback_url request); cbv zeta in Hrun; by simplify_eq.
    + right. right.
      rewrite validate_proxy_ticket_unfold, Hvalid in Hrun. cbv zeta in Hrun.
      set (w1 := logged w (pt_request_events request) d) in *.
      destruct (step_back_cases w1 pt)
        as [(pgt & Hpgt & Hnull & Hstep)|[(prior & Hhop & Hstep)|(what & Hstep & Hno)]];
        rewrite Hstep in Hrun.
      * destruct fuel; simpl in Hrun; unfold ret in Hrun;
          by destruct (callback_url request).
      * destruct (while_prior_pt fuel (Some prior) [pt_service pt] w1)
          as [[[proxies|e'] w3]|] eqn:Hloop; [|  |done].
        -- by destruct (callback_url request).
        -- simplify_eq.
           apply while_prior_pt_raises_world in Hloop as (-> & [what ->] & Hno).
           exists pt, d, what. split; [done|]. split; [done|]. split; [done|].
           intros ts Hts.
           inversion Hts as [? pgt Hpgt Hnull|? prior' rest Hhop' Hrest]; subst.
           ++ by eapply hop_no_end.
           ++ rewrite <- (hop_functional _ _ _ _ Hhop Hhop') in Hrest.
              by apply (Hno rest).
      * simplify_eq. exists pt, d, what. by split.
  - left. exists e, d. split; [done|].
    rewrite validate_proxy_ticket_unfold, Hvalid in Hrun.
    destruct (ticket_errors e); simplify_eq; by rewrite ?app_nil_r.
Qed.

Lemma validate_service_ticket_rows_kept request w o w' :
  validate_service_ticket request w = Some (o, w') ->
  rows_kept (ST_validate_ticket (GET request !! "ticket") (GET request !! "service")
                                (GET request !! "renew") (db w)).2 (db w').
Proof.
  rewrite validate_service_ticket_unfold.
  destruct (ST_validate_ticket _ _ _ _) as [[st|e] d]; simpl.
  - destruct (callback_url request) as [url|]; cbv zeta; intros; simplify_eq.
    + apply rows_kept_add_pgt, new_pgt_fresh.
    + apply rows_kept_refl.
  - destruct (ticket_errors e); intros; simplify_eq; apply rows_kept_refl.
Qed.

Lemma validate_proxy_ticket_rows_kept fuel request w o w' :
  validate_proxy_ticket fuel request w = Some (o, w') ->
  rows_kept (PT_validate_ticket (GET request !! "ticket") (GET request !! "service")
                                (db w)).2 (db w').
Proof.
  intros Hrun.
  destruct (validate_proxy_ticket_outcomes _ _ _ _ _ Hrun)
    as [(e & d & -> & _ & ->)
       |[(pt & d & ts & -> & _ & _ & Hend)|(pt & d & what & -> & _ & -> & _)]];
    simpl; try apply rows_kept_refl.
  destruct (callback_url request) as [url|]; destruct Hend as [_ ->]; simpl.
  - apply rows_kept_add_pgt, new_pgt_fresh.
  - apply rows_kept_refl.
Qed.

Lemma validate_proxy_granting_ticket_rows_kept request w o w' :
  validate_proxy_granting_ticket request w = Some (o, w') ->
  rows_kept (PGT_validate_ticket (GET request !! "pgt")
                                 (GET request !! "targetService") (db w)).2 (db w').
Proof.
  rewrite validate_proxy_granting_ticket_unfold.
  destruct (PGT_validate_ticket _ _ _) as [[pgt|e] d]; simpl.
  - cbv zeta. intros; simplify_eq. apply rows_kept_add_pt, new_pt_fresh.
  - destruct (pgt_errors e); intros; simplify_eq; apply rows_kept_refl.
Qed.

End Outcomes.

Section Shapes.
Context `{TicketStore}.
Implicit Types (request : Request) (w : World) (d : DB).

(** X1: in every tuple that a validator returns, the ticket slot is filled
    exactly when the error slot is empty; a proxy-granting ticket comes only
    with a ticket, and the proxy validator's chain comes exactly with a
    ticket. *)
Theorem result_slots_agree request w :
  (forall t g e w',
     validate_service_ticket request w = Some (Return (t, g, e), w') ->
     (is_Some t <-> e = None) /\ (is_Some g -> is_Some t))
  /\ (forall fuel t g c e w',
        validate_proxy_ticket fuel request w = Some (Return (t, g, c, e), w') ->
        (is_Some t <-> e = None)
        /\ (is_Some c <-> is_Some t)
        /\ (is_Some g -> is_Some t))
  /\ (forall t e w',
        validate_proxy_granting_ticket request w = Some (Return (t, e), w') ->
        (is_Some t <-> e = None)).
Proof.
  split; [|split].
  - intros t g e w'. rewrite validate_service_ticket_unfold.
    destruct (ST_validate_ticket _ _ _ _) as [[st|e0] d].
    + destruct (callback_url request); cbv zeta; intros; simplify_eq;
        naive_solver.
    + destruct (ticket_errors e0); intros; simplify_eq.
      split; [split; [by intros [? ?]|done]|by intros [? ?]].
  - intros fuel t g c e w' Hrun.
    destruct (validate_proxy_ticket_outcomes _ _ _ _ _ Hrun)
      as [(e0 & d & _ & Ho & _)
         |[(pt & d & ts & _ & _ & _ & Hend)|(pt & d & what & _ & Ho & _)]].
    + destruct (ticket_errors e0); simplify_eq.
      split; [split; [by intros [? ?]|done]|].
      split; [split; by intros [? ?]|by intros [? ?]].
    + destruct (callback_url request); destruct Hend as [Ho _]; simplify_eq;
        naive_solver.
    + done.
  - intros t e w'. rewrite validate_proxy_granting_ticket_unfold.
    destruct (PGT_validate_ticket _ _ _) as [[pgt|e0] d].
    + cbv zeta. intros; simplify_eq. naive_solver.
    + destruct (pgt_errors e0); intros; simplify_eq.
      split; [by intros [? ?]|done].
Qed.

(** X2: the service validator raises exactly when the store raised an
    exception that is not one of its four error kinds, and the
    proxy-granting ticket validator exactly when the store raised one that is
    not one of its three; the exception is the store's, and no warning is
    logged.  So a BadPGTError passes through the service validator, and an
    InvalidTicketError or InvalidServiceError through the proxy-granting
    ticket validator. *)
Theorem foreign_exceptions_escape request w e w' :
  (validate_service_ticket request w = Some (Raise e, w') <->
   exists d,
     ST_validate_ticket (GET request !! "ticket") (GET request !! "service")
                        (GET request !! "renew") (db w) = (Raise e, d)
     /\ ~ ticket_validation_error e
     /\ w' = logged w (st_request_events request) d)
  /\ (validate_proxy_granting_ticket request w = Some (Raise e, w') <->
      exists d,
        PGT_validate_ticket (GET request !! "pgt") (GET request !! "targetService")
                            (db w) = (Raise e, d)
        /\ ~ pgt_validation_error e
        /\ w' = logged w (pgt_request_events request) d)
  /\ (forall msg, ~ ticket_validation_error (BadPGTError msg))
  /\ (forall msg, ~ pgt_validation_error (InvalidTicketError msg)
                  /\ ~ pgt_validation_error (InvalidServiceError msg)).
Proof.
  split; [|split; [|split]].
  - rewrite validate_service_ticket_unfold. split.
    + destruct (ST_validate_ticket _ _ _ _) as [[st|e0] d].
      * by destruct (callback_url request).
      * destruct (ticket_errors e0) eqn:Hcaught; intros; simplify_eq.
        exists d. by rewrite <- ticket_errors_spec.
    + intros (d & -> & Hnot & ->). apply ticket_errors_spec in Hnot.
      by rewrite Hnot.
  - rewrite validate_proxy_granting_ticket_unfold. split.
    + destruct (PGT_validate_ticket _ _ _) as [[pgt|e0] d]; [done|].
      destruct (pgt_errors e0) eqn:Hcaught; intros; simplify_eq.
      exists d. by rewrite <- pgt_errors_spec.
    + intros (d & -> & Hnot & ->). apply pgt_errors_spec in Hnot.
      by rewrite Hnot.
  - intros msg He. inversion He.
  - intros msg. split; intros He; inversion He.
Qed.

(** X3: when the store accepts a proxy ticket whose proxy-granting ticket is
    not in the database, the proxy validator raises ObjectDoesNotExist.
    Whenever it raises after the store accepted the ticket, the exception is
    an ObjectDoesNotExist, the ticket has no delegation history, and nothing
    was created, callback URL or not: the database is the one the store left
    and the trace holds the request's two events only. *)
Theorem dangling_reference_raises fuel request w pt d :
  PT_validate_ticket (GET request !! "ticket") (GET request !! "service") (db w)
  = (Return pt, d) ->
  (proxy_granting_tickets d !! pt_granted_by_pgt pt = None ->
   validate_proxy_ticket fuel request w
   = Some (Raise (ObjectDoesNotExist "ProxyGrantingTicket"),
           logged w (pt_request_events request) d))
  /\ (forall e w',
        validate_proxy_ticket fuel request w = Some (Raise e, w') ->
        (exists what, e = ObjectDoesNotExist what)
        /\ w' = logged w (pt_request_events request) d
        /\ forall ts, ~ delegation_history d pt ts).
Proof.
  intros Hvalid. split.
  - intros Hmissing. rewrite validate_proxy_ticket_unfold, Hvalid. cbv zeta.
    unfold step_back, bind, granted_by_pgt, fetch. simpl. by rewrite Hmissing.
  - intros e w' Hrun.
    destruct (validate_proxy_ticket_outcomes _ _ _ _ _ Hrun)
      as [(e0 & d0 & Hvalid0 & _)
         |[(pt0 & d0 & ts & _ & _ & _ & Hend)
          |(pt0 & d0 & what & Hvalid0 & Ho & -> & Hno)]].
    + congruence.
    + destruct (callback_url request); by destruct Hend.
    + rewrite Hvalid in Hvalid0. simplify_eq. split; [by eauto|]. by split.
Qed.

(** X4: a validator keeps every row that the store's validation left, and
    adds at most one: the service and the proxy validator leave the service
    tickets and the proxy tickets as they are, the proxy-granting ticket
    validator the service tickets and the proxy-granting tickets. *)
Theorem validators_keep_rows request w :
  (forall (o : outcome ST_result) w',
     validate_service_ticket request w = Some (o, w') ->
     let d := (ST_validate_ticket (GET request !! "ticket")
                 (GET request !! "service") (GET request !! "renew") (db w)).2 in
     rows_kept d (db w')
     /\ service_tickets (db w') = service_tickets d
     /\ proxy_tickets (db w') = proxy_tickets d
     /\ size (proxy_granting_tickets (db w')) <= S (size (proxy_granting_tickets d)))
  /\ (forall fuel (o : outcome PT_result) w',
        validate_proxy_ticket fuel request w = Some (o, w') ->
        let d := (PT_validate_ticket (GET request !! "ticket")
                    (GET request !! "service") (db w)).2 in
        rows_kept d (db w')
        /\ service_tickets (db w') = service_tickets d
        /\ proxy_tickets (db w') = proxy_tickets d
        /\ size (proxy_granting_tickets (db w'))
           <= S (size (proxy_granting_tickets d)))
  /\ (forall (o : outcome PGT_result) w',
        validate_proxy_granting_ticket request w = Some (o, w') ->
        let d := (PGT_validate_ticket (GET request !! "pgt")
                    (GET request !! "targetService") (db w)).2 in
        rows_kept d (db w')
        /\ service_tickets (db w') = service_tickets d
        /\ proxy_granting_tickets (db w') = proxy_granting_tickets d
        /\ size (proxy_tickets (db w')) <= S (size (proxy_tickets d))).
Proof.
  split; [|split].
  - intros o' w' Hrun. split; [by eapply validate_service_ticket_rows_kept|].
    revert Hrun. rewrite validate_service_ticket_unfold.
    destruct (ST_validate_ticket _ _ _ _) as [[st|e] d]; simpl.
    + destruct (callback_url request) as [url|]; cbv zeta; intros; simplify_eq;
        simpl; repeat split; try lia.
      rewrite map_size_insert_None; [lia|apply not_elem_of_dom, is_fresh].
    + destruct (ticket_errors e); intros; simplify_eq; simpl;
        repeat split; lia.
  - intros fuel o' w' Hrun. split; [by eapply validate_proxy_ticket_rows_kept|].
    destruct (validate_proxy_ticket_outcomes _ _ _ _ _ Hrun)
      as [(e & d & -> & _ & ->)
         |[(pt & d & ts & -> & _ & _ & Hend)|(pt & d & what & -> & _ & -> & _)]];
      simpl; try (repeat split; lia).
    destruct (callback_url request) as [url|]; destruct Hend as [_ ->]; simpl;
      repeat split; try lia.
    rewrite map_size_insert_None; [lia|apply not_elem_of_dom, is_fresh].
  - intros o' w' Hrun.
    split; [by eapply validate_proxy_granting_ticket_rows_kept|].
    revert Hrun. rewrite validate_proxy_granting_ticket_unfold.
    destruct (PGT_validate_ticket _ _ _) as [[pgt|e] d]; simpl.
    + cbv zeta. intros; simplify_eq. simpl. repeat split.
      rewrite map_size_insert_None; [lia|apply not_elem_of_dom, is_fresh].
    + destruct (pgt_errors e); intros; simplify_eq; simpl; repeat split; lia.
Qed.

End Shapes.

Section Traces.
Context `{TicketStore}.
Implicit Types (request : Request) (w : World) (d : DB).

(** X5: every finished run of a validator adds to the trace its debug record
    and its one validation call, then no further validation and at most one
    create call, which is the last event of the run. *)
Theorem one_validation_then_at_most_one_creation request w :
  (forall (o : outcome ST_result) w',
     validate_service_ticket request w = Some (o, w') ->
     exists rest, trace w' = trace w ++ st_request_events request ++ rest
                  /\ after_validation rest)
  /\ (forall fuel (o : outcome PT_result) w',
        validate_proxy_ticket fuel request w = Some (o, w') ->
        exists rest, trace w' = trace w ++ pt_request_events request ++ rest
                     /\ after_validation rest)
  /\ (forall (o : outcome PGT_result) w',
        validate_proxy_granting_ticket request w = Some (o, w') ->
        exists rest, trace w' = trace w ++ pgt_request_events request ++ rest
                     /\ after_validation rest).
Proof.
  assert (after_validation []) as Hnil by (split; [|left]; constructor).
  assert (forall e, after_validation [LogWarn e]) as Hwarn
    by (split; [|left]; by repeat constructor).
  assert (forall url user st pt,
             after_validation (pgt_issue_events url user st pt)) as Hissue.
  { intros. split; [by repeat constructor|]. right.
    eexists [_], _. split; [reflexivity|]. split; [done|by repeat constructor]. }
  assert (forall service user pgt,
             after_validation [PT_create service user pgt]) as Hcreate.
  { intros. split; [by repeat constructor|]. right.
    exists [], (PT_create service user pgt). split; [done|]. by split. }
  split; [|split].
  - intros o w'. rewrite validate_service_ticket_unfold.
    destruct (ST_validate_ticket _ _ _ _) as [[st|e] d].
    + destruct (callback_url request) as [url|]; cbv zeta; intros; simplify_eq;
        simpl trace.
      * eexists. split; [reflexivity|]. apply Hissue.
      * exists []. by rewrite app_nil_r.
    + destruct (ticket_errors e); intros; simplify_eq; simpl trace.
      * eexists. split; [reflexivity|]. apply Hwarn.
      * exists []. by rewrite app_nil_r.
  - intros fuel o w' Hrun.
    destruct (validate_proxy_ticket_outcomes _ _ _ _ _ Hrun)
      as [(e & d & _ & _ & ->)
         |[(pt & d & ts & _ & _ & _ & Hend)|(pt & d & what & _ & _ & -> & _)]];
      simpl trace.
    + destruct (ticket_errors e); eexists; (split; [reflexivity|]); done.
    + destruct (callback_url request) as [url|]; destruct Hend as [_ ->];
        simpl trace.
      * eexists. split; [reflexivity|]. apply Hissue.
      * exists []. by rewrite app_nil_r.
    + exists []. by rewrite app_nil_r.
  - intros o w'. rewrite validate_proxy_granting_ticket_unfold.
    destruct (PGT_validate_ticket _ _ _) as [[pgt|e] d].
    + cbv zeta. intros; simplify_eq. simpl trace.
      eexists. split; [reflexivity|]. apply Hcreate.
    + destruct (pgt_errors e); intros; simplify_eq; simpl trace.
      * eexists. split; [reflexivity|]. apply Hwarn.
      * exists []. by rewrite app_nil_r.
Qed.

(** X8: a finished run of a validator changes the delegation history of no
    ticket: a history in the database that the store's validation left is a
    history in the database after the run. *)
Theorem validators_keep_histories request w p ts :
  (forall (o : outcome ST_result) w',
     validate_service_ticket request w = Some (o, w') ->
     delegation_history
       (ST_validate_ticket (GET request !! "ticket") (GET request !! "service")
                           (GET request !! "renew") (db w)).2 p ts ->
     delegation_history (db w') p ts)
  /\ (forall fuel (o : outcome PT_result) w',
        validate_proxy_ticket fuel request w = Some (o, w') ->
        delegation_history
          (PT_validate_ticket (GET request !! "ticket") (GET request !! "service")
                              (db w)).2 p ts ->
        delegation_history (db w') p ts)
  /\ (forall (o : outcome PGT_result) w',
        validate_proxy_granting_ticket request w = Some (o, w') ->
        delegation_history
          (PGT_validate_ticket (GET request !! "pgt")
                               (GET request !! "targetService") (db w)).2 p ts ->
        delegation_history (db w') p ts).
Proof.
  split; [|split].
  - intros o w' Hrun Hts. eapply delegation_history_rows_kept; [|exact Hts].
    by eapply validate_service_ticket_rows_kept.
  - intros fuel o w' Hrun Hts. eapply delegation_history_rows_kept; [|exact Hts].
    by eapply validate_proxy_ticket_rows_kept.
  - intros o w' Hrun Hts. eapply delegation_history_rows_kept; [|exact Hts].
    by eapply validate_proxy_granting_ticket_rows_kept.
Qed.

(** X11: for a ticket that the store accepted and whose delegation history
    has n tickets, the loop body runs once per prior ticket: the proxy
    validator finishes with fuel for n - 1 runs of the body, and with less it
    does not. *)
Theorem loop_runs_once_per_prior_ticket fuel request w pt d ts :
  PT_validate_ticket (GET request !! "ticket") (GET request !! "service") (db w)
  = (Return pt, d) ->
  delegation_history d pt ts ->
  (validate_proxy_ticket fuel request w = None <-> S fuel < length ts).
Proof.
  intros Hvalid Hts. split.
  - intros Hnone. destruct (decide (length ts <= S fuel)) as [Hfuel|]; [|lia].
    rewrite (validate_proxy_ticket_history _ _ _ _ _ _ Hvalid Hts Hfuel) in Hnone.
    by destruct (callback_url request).
  - intros Hfuel. rewrite validate_proxy_ticket_unfold, Hvalid. cbv zeta.
    set (w1 := logged w (pt_request_events request) d).
    inversion Hts as [? pgt Hpgt Hnull|? prior rest Hhop Hrest]; subst.
    + simpl in Hfuel. lia.
    + rewrite (step_back_hop w1 _ _ Hhop).
      rewrite (while_prior_pt_starved fuel (Some prior) _ w1 rest); [done|done|].
      simpl in Hfuel. lia.
Qed.

End Traces.

(** ** One validator after the other *)

Lemma rows_kept_pgt d d' id pgt :
  rows_kept d d' ->
  proxy_granting_tickets d !! id = Some pgt ->
  proxy_granting_tickets d' !! id = Some pgt.
Proof. intros (_ & _ & Hpgts) Hrow. by eapply lookup_weaken. Qed.

Lemma rows_kept_pt d d' id pt :
  rows_kept d d' ->
  proxy_tickets d !! id = Some pt ->
  proxy_tickets d' !! id = Some pt.
Proof. intros (_ & Hpts & _) Hrow. by eapply lookup_weaken. Qed.

Section Hops.
Context `{TicketStore}.
Implicit Types (request : Request) (w : World) (d : DB).

(** The proxy ticket that the proxy-granting ticket validator issues for a
    stored proxy-granting ticket, seen from any later database. *)
Lemma issued_proxy_ticket request w pgt d :
  PGT_validate_ticket (GET request !! "pgt") (GET request !! "targetService") (db w)
  = (Return pgt, d) ->
  proxy_granting_tickets d !! pgt_id pgt = Some pgt ->
  exists pt w',
    validate_proxy_granting_ticket request w = Some (Return (Some pt, None), w')
    /\ pt_service pt = GET request !! "targetService"
    /\ pt_granted_by_pgt pt = pgt_id pgt
    /\ rows_kept d (db w')
    /\ proxy_granting_tickets (db w') !! pgt_id pgt = Some pgt.
Proof.
  intros Hvalid Hstored. rewrite validate_proxy_granting_ticket_unfold, Hvalid.
  eexists _, _. split; [reflexivity|]. simpl.
  repeat split; try done. by apply insert_subseteq, not_elem_of_dom, is_fresh.
Qed.

(** X6: one more proxy hop puts one more service in front of the chain.  If
    a proxy validation of a stored ticket returned a chain and issued a
    proxy-granting ticket, and the store then accepts that ticket for a
    target service, the validator issues a proxy ticket; when the store
    later accepts this proxy ticket, the proxy validator returns the target
    service followed by the earlier chain.  The store may add rows in
    between, as long as it keeps the rows that are there. *)
Theorem proxy_hop_extends_chain fuel request_a request_b w pt pgt chain w_a d_b :
  validate_proxy_ticket fuel request_a w
  = Some (Return (Some pt, Some pgt, Some chain, None), w_a) ->
  proxy_tickets (db w_a) !! pt_id pt = Some pt ->
  PGT_validate_ticket (GET request_b !! "pgt") (GET request_b !! "targetService")
                      (db w_a) = (Return pgt, d_b) ->
  rows_kept (db w_a) d_b ->
  exists pt' w_b,
    validate_proxy_granting_ticket request_b w_a
    = Some (Return (Some pt', None), w_b)
    /\ forall request_c d_c fuel',
         PT_validate_ticket (GET request_c !! "ticket") (GET request_c !! "service")
                            (db w_b) = (Return pt', d_c) ->
         rows_kept (db w_b) d_c ->
         length chain <= fuel' ->
         exists pgt' w_c,
           validate_proxy_ticket fuel' request_c w_b
           = Some (Return (Some pt', pgt',
                           Some (GET request_b !! "targetService" :: chain),
                           None), w_c).
Proof.
  intros Hrun_a Hstored Hvalid_b Hkept_b.
  destruct (validate_proxy_ticket_outcomes _ _ _ _ _ Hrun_a)
    as [(e & d & _ & Ho & _)
       |[(pt0 & d_a & ts & Hvalid_a & Hts & _ & Hend)|(pt0 & d & what & _ & Ho & _)]];
    [by destruct (ticket_errors e)| |done].
  destruct (callback_url request_a) as [url|]; destruct Hend as [Ho ->];
    [|by inversion Ho].
  injection Ho as Hpt Hpgt Hchain. subst pt0 pgt chain.
  set (pgt := new_pgt url (pt_user pt) None (Some pt) d_a) in *.
  assert (rows_kept d_a (add_pgt d_a pgt)) as Hkept_a
    by apply rows_kept_add_pgt, new_pgt_fresh.
  assert (proxy_granting_tickets d_b !! pgt_id pgt = Some pgt) as Hpgt_b.
  { apply (rows_kept_pgt _ _ _ _ Hkept_b). simpl. apply lookup_insert_eq. }
  destruct (issued_proxy_ticket _ _ _ _ Hvalid_b Hpgt_b)
    as (pt' & w_b & Hrun_b & Hservice & Hby & Hkept_w_b & Hpgt_w_b).
  exists pt', w_b. split; [done|].
  intros request_c d_c fuel' Hvalid_c Hkept_c Hfuel.
  assert (rows_kept d_a d_c) as Hkept.
  { eapply rows_kept_trans; [exact Hkept_a|].
    eapply rows_kept_trans; [exact Hkept_b|].
    eapply rows_kept_trans; [exact Hkept_w_b|exact Hkept_c]. }
  assert (delegation_history d_c pt' (pt' :: ts)) as Hts'.
  { apply history_hop with pt.
    - exists pgt, (pt_id pt). split; [|split; [done|]].
      + rewrite Hby. by apply (rows_kept_pgt _ _ _ _ Hkept_c).
      + apply (rows_kept_pt (db w_b)); [done|].
        apply (rows_kept_pt d_b); [done|].
        by apply (rows_kept_pt (add_pgt d_a pgt)).
    - by apply (delegation_history_rows_kept d_a). }
  rewrite length_fmap in Hfuel.
  rewrite (validate_proxy_ticket_history _ _ _ _ _ _ Hvalid_c Hts');
    [|simpl; lia].
  simpl. rewrite Hservice. destruct (callback_url request_c); eauto.
Qed.

(** X7: the first hop.  If a service validation issued a proxy-granting
    ticket and the store then accepts that ticket for a target service, the
    validator issues a proxy ticket; when the store later accepts this proxy
    ticket, the proxy validator returns the target service alone as the
    chain, whatever the fuel. *)
Theorem first_hop_is_a_single_proxy request_a request_b w st pgt w_a d_b :
  validate_service_ticket request_a w
  = Some (Return (Some st, Some pgt, None), w_a) ->
  PGT_validate_ticket (GET request_b !! "pgt") (GET request_b !! "targetService")
                      (db w_a) = (Return pgt, d_b) ->
  rows_kept (db w_a) d_b ->
  exists pt' w_b,
    validate_proxy_granting_ticket request_b w_a
    = Some (Return (Some pt', None), w_b)
    /\ forall request_c d_c fuel',
         PT_validate_ticket (GET request_c !! "ticket") (GET request_c !! "service")
                            (db w_b) = (Return pt', d_c) ->
         rows_kept (db w_b) d_c ->
         exists pgt' w_c,
           validate_proxy_ticket fuel' request_c w_b
           = Some (Return (Some pt', pgt',
                           Some [GET request_b !! "targetService"], None), w_c).
Proof.
  intros Hrun_a Hvalid_b Hkept_b.
  rewrite validate_service_ticket_unfold in Hrun_a.
  destruct (ST_validate_ticket _ _ _ _) as [[st0|e] d_a];
    [|by destruct (ticket_errors e)].
  destruct (callback_url request_a) as [url|]; cbv zeta in Hrun_a;
    [|by inversion Hrun_a].
  injection Hrun_a as Hst Hpgt Hw. subst st0 pgt w_a.
  set (pgt := new_pgt url (st_user st) (Some st) None d_a) in *.
  assert (proxy_granting_tickets d_b !! pgt_id pgt = Some pgt) as Hpgt_b.
  { apply (rows_kept_pgt _ _ _ _ Hkept_b). simpl. apply lookup_insert_eq. }
  destruct (issued_proxy_ticket _ _ _ _ Hvalid_b Hpgt_b)
    as (pt' & w_b & Hrun_b & Hservice & Hby & Hkept_w_b & Hpgt_w_b).
  exists pt', w_b. split; [done|].
  intros request_c d_c fuel' Hvalid_c Hkept_c.
  assert (delegation_history d_c pt' [pt']) as Hts'.
  { apply history_end with pgt; [|done].
    rewrite Hby. by apply (rows_kept_pgt _ _ _ _ Hkept_c). }
  rewrite (validate_proxy_ticket_history _ _ _ _ _ _ Hvalid_c Hts');
    [|simpl; lia].
  simpl. rewrite Hservice. destruct (callback_url request_c); eauto.
Qed.

End Hops.

(** ** The parameters that a validator reads *)

Lemma without_param_other key key' request :
  key <> key' -> GET (without_param key request) !! key' = GET request !! key'.
Proof. intros Hne. unfold without_param. simpl. by apply lookup_delete_ne. Qed.

Lemma without_pgturl_no_callback request :
  callback_url (without_param "pgtUrl" request) = None.
Proof.
  unfold callback_url, without_param. simpl. by rewrite lookup_delete_eq.
Qed.

Lemma empty_pgturl_no_callback request :
  GET request !! "pgtUrl" = Some EmptyString -> callback_url request = None.
Proof. intros Hempty. unfold callback_url. by rewrite Hempty. Qed.

Section Parameters.
Context `{TicketStore}.
Implicit Types (request : Request) (w : World).

Lemma validate_service_ticket_params request request' w :
  GET request !! "ticket" = GET request' !! "ticket" ->
  GET request !! "service" = GET request' !! "service" ->
  GET request !! "renew" = GET request' !! "renew" ->
  callback_url request = callback_url request' ->
  validate_service_ticket request w = validate_service_ticket request' w.
Proof.
  intros Hticket Hservice Hrenew Hurl.
  rewrite !validate_service_ticket_unfold. unfold st_request_events.
  by rewrite Hticket, Hservice, Hrenew, Hurl.
Qed.

Lemma validate_proxy_ticket_params fuel request request' w :
  GET request !! "ticket" = GET request' !! "ticket" ->
  GET request !! "service" = GET request' !! "service" ->
  callback_url request = callback_url request' ->
  validate_proxy_ticket fuel request w = validate_proxy_ticket fuel request' w.
Proof.
  intros Hticket Hservice Hurl.
  rewrite !validate_proxy_ticket_unfold. unfold pt_request_events.
  by rewrite Hticket, Hservice, Hurl.
Qed.

(** X9: a validator depends on its request through its own parameters only.
    The service validator reads ticket, service, renew and the callback URL;
    the proxy validator reads ticket, service and the callback URL, and not
    renew; the proxy-granting ticket validator reads pgt and targetService,
    and no callback URL. *)
Theorem validators_read_their_parameters request request' w :
  (GET request !! "ticket" = GET request' !! "ticket" ->
   GET request !! "service" = GET request' !! "service" ->
   GET request !! "renew" = GET request' !! "renew" ->
   callback_url request = callback_url request' ->
   validate_service_ticket request w = validate_service_ticket request' w)
  /\ (GET request !! "ticket" = GET request' !! "ticket" ->
      GET request !! "service" = GET request' !! "service" ->
      callback_url request = callback_url request' ->
      forall fuel,
        validate_proxy_ticket fuel request w
        = validate_proxy_ticket fuel request' w)
  /\ (GET request !! "pgt" = GET request' !! "pgt" ->
      GET request !! "targetService" = GET request' !! "targetService" ->
      validate_proxy_granting_ticket request w
      = validate_proxy_granting_ticket request' w).
Proof.
  split; [|split].
  - apply validate_service_ticket_params.
  - intros ? ? ? fuel. by apply validate_proxy_ticket_params.
  - intros Hpgt Htarget.
    rewrite !validate_proxy_granting_ticket_unfold. unfold pgt_request_events.
    by rewrite Hpgt, Htarget.
Qed.

(** X10: an empty pgtUrl is no callback URL.  The service validator and the
    proxy validator run on a request whose pgtUrl is the empty string as they
    run on the request without the parameter: same outcome, same database,
    same trace. *)
Theorem empty_pgturl_is_no_pgturl request w :
  GET request !! "pgtUrl" = Some EmptyString ->
  validate_service_ticket request w
  = validate_service_ticket (without_param "pgtUrl" request) w
  /\ forall fuel,
       validate_proxy_ticket fuel request w
       = validate_proxy_ticket fuel (without_param "pgtUrl" request) w.
Proof.
  intros Hempty.
  assert (callback_url request = callback_url (without_param "pgtUrl" request))
    as Hurl
    by (by rewrite without_pgturl_no_callback, empty_pgturl_no_callback).
  split; [|intros fuel].
  - apply validate_service_ticket_params;
      by rewrite ?without_param_other.
  - apply validate_proxy_ticket_params;
      by rewrite ?without_param_other.
Qed.

End Parameters.

(** ** The warnings of the attribute extractor, and its use on a result *)

Lemma for_attr_list_snd who (fields : gmap string value)
    (attr_list : list (string * string)) (acc : list Attribute) log :
  (for_attr_list who fields attr_list (acc, log)).2
  = log ++ omap (warning_for who fields) attr_list.
Proof.
  unfold for_attr_list.
  revert acc log. induction attr_list as [|[name key] rest IH]; intros acc log.
  - simpl. by rewrite app_nil_r.
  - change (fold_left (attr_step who fields) ((name, key) :: rest) (acc, log))
      with (fold_left (attr_step who fields) rest
                      (attr_step who fields (acc, log) (name, key))).
    change (omap (warning_for who fields) ((name, key) :: rest))
      with (from_option (fun a => a :: omap (warning_for who fields) rest)
                        (omap (warning_for who fields) rest)
                        (warning_for who fields (name, key))).
    unfold attr_step at 2, warning_for at 3, getattr. simpl.
    destruct (fields !! key); rewrite IH; simpl; [done|].
    by rewrite <- app_assoc.
Qed.

Lemma resolved_or_warned who (fields : gmap string value)
    (attr_list : list (string * string)) :
  length (omap (resolved fields) attr_list)
  + length (omap (warning_for who fields) attr_list)
  = length attr_list.
Proof.
  induction attr_list as [|[name key] rest IH]; [done|].
  change (omap (resolved fields) ((name, key) :: rest))
    with (from_option (fun a => a :: omap (resolved fields) rest)
                      (omap (resolved fields) rest) (resolved fields (name, key))).
  change (omap (warning_for who fields) ((name, key) :: rest))
    with (from_option (fun a => a :: omap (warning_for who fields) rest)
                      (omap (warning_for who fields) rest)
                      (warning_for who fields (name, key))).
  destruct (fields !! key) as [v|] eqn:Hkey.
  - assert (resolved fields (name, key) = Some (name, v)) as ->
      by (unfold resolved; simpl; by rewrite Hkey).
    assert (warning_for who fields (name, key) = None) as ->
      by (unfold warning_for; simpl; by rewrite Hkey).
    simpl. lia.
  - assert (resolved fields (name, key) = None) as ->
      by (unfold resolved; simpl; by rewrite Hkey).
    assert (is_Some (warning_for who fields (name, key))) as [ev ->]
      by (unfold warning_for; simpl; rewrite Hkey; by eexists).
    simpl. lia.
Qed.

(** X12: the extractor logs one warning for each configured entry whose field
    is missing, naming the field, first for the user list and then, when the
    user has a profile, for the profile list, in the order of the lists.  So
    with a profile every configured entry is either reported or warned
    about; without one the profile entries are dropped without a warning. *)
Theorem get_custom_attributes_warnings settings t :
  let user := ticket_user t in
  let user_attr_list := getattr_default (MAMA_CAS_USER_ATTRIBUTES settings) in
  let profile_attr_list := getattr_default (MAMA_CAS_PROFILE_ATTRIBUTES settings) in
  (get_custom_attributes settings (Some t)).2
  = omap (warning_for "User" (user_fields user)) user_attr_list
    ++ match get_profile user with
       | ProfileFound profile =>
         omap (warning_for "Profile" (profile_fields profile)) profile_attr_list
       | _ => []
       end
  /\ (exists attributes,
         (get_custom_attributes settings (Some t)).1 = Some attributes
         /\ length attributes + length (get_custom_attributes settings (Some t)).2
            = length user_attr_list
              + match get_profile user with
                | ProfileFound _ => length profile_attr_list
                | _ => 0
                end)
  /\ (get_custom_attributes settings None).2 = [].
Proof.
  intros user user_attr_list profile_attr_list.
  assert ((get_custom_attributes settings (Some t)).2
          = omap (warning_for "User" (user_fields user)) user_attr_list
            ++ match get_profile user with
               | ProfileFound profile =>
                 omap (warning_for "Profile" (profile_fields profile))
                      profile_attr_list
               | _ => []
               end) as Hlog.
  { unfold get_custom_attributes. cbn [snd].
    fold user user_attr_list profile_attr_list.
    pose proof (for_attr_list_snd "User" (user_fields user) user_attr_list [] [])
      as Huser.
    destruct (for_attr_list "User" (user_fields user) user_attr_list ([], []))
      as [acc log]. simpl in Huser. subst log.
    destruct (get_profile user) as [profile| |].
    - by rewrite for_attr_list_snd.
    - simpl. by rewrite app_nil_r.
    - simpl. by rewrite app_nil_r. }
  split; [done|]. split; [|done].
  eexists. split; [apply get_custom_attributes_some|].
  rewrite Hlog. fold user user_attr_list profile_attr_list.
  rewrite !length_app.
  pose proof (resolved_or_warned "User" (user_fields user) user_attr_list).
  destruct (get_profile user) as [profile| |]; simpl; try lia.
  pose proof (resolved_or_warned "Profile" (profile_fields profile)
                                 profile_attr_list).
  lia.
Qed.

Section Extraction.
Context `{TicketStore}.
Implicit Types (request : Request) (w : World).

(** X13: handed the ticket slot of a returned tuple, the extractor returns
    None exactly when the tuple carries an error, for the service validator
    and for the proxy validator. *)
Theorem attributes_exactly_on_success settings request w :
  (forall t g e w',
     validate_service_ticket request w = Some (Return (t, g, e), w') ->
     ((get_custom_attributes settings (TicketST <$> t)).1 = None <-> is_Some e))
  /\ (forall fuel t g c e w',
        validate_proxy_ticket fuel request w = Some (Return (t, g, c, e), w') ->
        ((get_custom_attributes settings (TicketPT <$> t)).1 = None <-> is_Some e)).
Proof.
  split.
  - intros t g e w'. rewrite validate_service_ticket_unfold.
    destruct (ST_validate_ticket _ _ _ _) as [[st|e0] d].
    + destruct (callback_url request); cbv zeta; intros; simplify_eq;
        (split; [done|by intros [? ?]]).
    + destruct (ticket_errors e0); intros; simplify_eq.
      split; [by eauto|done].
  - intros fuel t g c e w' Hrun.
    destruct (validate_proxy_ticket_outcomes _ _ _ _ _ Hrun)
      as [(e0 & d & _ & Ho & _)
         |[(pt & d & ts & _ & _ & _ & Hend)|(pt & d & what & _ & Ho & _)]].
    + destruct (ticket_errors e0); simplify_eq. split; [by eauto|done].
    + destruct (callback_url request); destruct Hend as [Ho _]; simplify_eq;
        (split; [done|by intros [? ?]]).
    + done.
Qed.

End Extraction.

(** ** The further properties on the sample data *)

Example three_proxies_in_a_row :
  match @validate_proxy_granting_ticket lookup_store hop_pgt_request hop_world with
  | Some (Return (Some pt', None), w_b) =>
    match @validate_proxy_ticket lookup_store 2 hop_pt_request w_b with
    | Some (Return (Some pt'', None, Some chain, None), _) =>
      pt'' = pt'
      /\ chain = [Some "https://d.example"; Some "https://c.example";
                  Some "https://b.example"]
    | _ => False
    end
  | _ => False
  end.
Proof. by vm_compute. Qed.

Example orphan_is_not_caught :
  match @validate_proxy_ticket lookup_store 0 orphan_request orphan_world with
  | Some (Raise (ObjectDoesNotExist _), w') =>
    db w' = orphan_db /\ trace w' = pt_request_events orphan_request
  | _ => False
  end.
Proof. by vm_compute. Qed.

Lemma dangling_reference_raises_witness :
  @validate_proxy_ticket lookup_store 3 orphan_request orphan_world
  = Some (Raise (ObjectDoesNotExist "ProxyGrantingTicket"),
          logged orphan_world (pt_request_events orphan_request) orphan_db).
Proof.
  destruct (@dangling_reference_raises lookup_store 3 orphan_request
              orphan_world pt_orphan orphan_db) as [Hraise _].
  - by vm_compute.
  - apply Hraise. by vm_compute.
Defined.

Lemma proxy_hop_extends_chain_witness :
  exists pt' w_b,
    @validate_proxy_granting_ticket lookup_store hop_pgt_request hop_world
    = Some (Return (Some pt', None), w_b).
Proof.
  destruct (@proxy_hop_extends_chain lookup_store 1 sample_pt_pgt_request
              hop_pgt_request sample_world pt2 hop_pgt
              [Some "https://c.example"; Some "https://b.example"]
              hop_world (db hop_world))
    as (pt' & w_b & Hrun & _).
  - by vm_compute.
  - by vm_compute.
  - by vm_compute.
  - apply rows_kept_refl.
  - by exists pt', w_b.
Defined.

Lemma first_hop_is_a_single_proxy_witness :
  exists pt' w_b,
    @validate_proxy_granting_ticket lookup_store hop_pgt_request first_world
    = Some (Return (Some pt', None), w_b).
Proof.
  destruct (@first_hop_is_a_single_proxy lookup_store sample_st_pgt_request
              hop_pgt_request sample_world st1 first_pgt first_world
              (db first_world))
    as (pt' & w_b & Hrun & _).
  - by vm_compute.
  - by vm_compute.
  - apply rows_kept_refl.
  - by exists pt', w_b.
Defined.

Lemma validators_read_their_parameters_witness :
  @validate_proxy_granting_ticket lookup_store
     (request_of [("pgt", "PGT-2"); ("targetService", "https://d.example");
                  ("pgtUrl", "https://d.example/callback")]) sample_world
  = @validate_proxy_granting_ticket lookup_store sample_pgt_request sample_world.
Proof.
  apply (proj2 (proj2 (@validators_read_their_parameters lookup_store
                         (request_of [("pgt", "PGT-2");
                                      ("targetService", "https://d.example");
                                      ("pgtUrl", "https://d.example/callback")])
                         sample_pgt_request sample_world))); by vm_compute.
Defined.

Lemma empty_pgturl_is_no_pgturl_witness :
  @validate_service_ticket lookup_store empty_pgturl_request sample_world
  = @validate_service_ticket lookup_store
      (without_param "pgtUrl" empty_pgturl_request) sample_world.
Proof.
  apply (proj1 (@empty_pgturl_is_no_pgturl lookup_store empty_pgturl_request
                  sample_world ltac:(by vm_compute))).
Defined.

Lemma loop_runs_once_per_prior_ticket_witness :
  @validate_proxy_ticket lookup_store 0 sample_pt_request sample_world = None
  /\ @validate_proxy_ticket lookup_store 1 sample_pt_request sample_world <> None.
Proof.
  pose proof (@loop_runs_once_per_prior_ticket lookup_store 0 sample_pt_request
                sample_world pt2 sample_db [pt2; pt1]
                ltac:(by vm_compute) sample_history) as Hzero.
  pose proof (@loop_runs_once_per_prior_ticket lookup_store 1 sample_pt_request
                sample_world pt2 sample_db [pt2; pt1]
                ltac:(by vm_compute) sample_history) as Hone.
  split.
  - apply Hzero. simpl. lia.
  - intros Hnone. apply Hone in Hnone. simpl in Hnone. lia.
Defined.
